(** * whisper-writer: the recording session engine of [TranscriptionService]

    A shallow embedding of [src/writer/transcription_module.py] and of the
    configuration classes it reads, followed by the properties of the
    capture loop, of the orchestration [record_and_transcribe] and of the
    text post-processing pipeline.

    Python values are modelled as follows.
    - [str] is a list of characters.  Characters are the code points
      U+0000..U+00FF (Rocq's [ascii]); on that range [str.strip] and
      [str.lower] are modelled exactly.
    - [int] is [Z]; [//] is [Z.div] (both round to minus infinity).
    - Exceptions, the status queue, the files written and the calls made to
      the transcription backends are threaded through a state-and-exception
      monad.  What the microphone, the keyboard, the speech detector, the
      file system and the backends answer is read from an environment.
    - The stream callback runs on another thread.  The environment gives,
      turn by turn, the samples the loop finds on [buffer]; a block that the
      callback adds to the list while line 98 replaces it reaches no turn and
      is left out (see [Tick]).
    - The cancellation flag is the attribute [stop_transcription] of the
      recording thread: [False] until [stop()] is called, [True] ever after.
    - Lines written to the logger and to standard error are left out. *)

From Stdlib Require Import Ascii String.
From Stdlib Require Import List ZArith Bool Lia PeanoNat.
Import ListNotations.

Set Implicit Arguments.

(* ================================================================== *)
(** * Python strings                                                   *)
(* ================================================================== *)

Module PyStr.

Definition str := list ascii.

(** A literal. *)
Definition lit (s : string) : str := list_ascii_of_string s.

(** Truthiness of a [str]: only the empty string is falsy. *)
Definition truthy (s : str) : bool :=
  match s with [] => false | _ :: _ => true end.

Definition code (c : ascii) : nat := nat_of_ascii c.

(** [str.isspace] on one character: U+0009..U+000D, U+001C..U+0020,
    U+0085 and U+00A0. *)
Definition isspace (c : ascii) : bool :=
  let n := code c in
  ((9 <=? n) && (n <=? 13)) || ((28 <=? n) && (n <=? 32))
  || (n =? 133) || (n =? 160).

(** [str.lower] on one character: A..Z and the upper-case letters of
    U+00C0..U+00DE (all but the multiplication sign U+00D7) move up by 32. *)
Definition lower_char (c : ascii) : ascii :=
  let n := code c in
  if ((65 <=? n) && (n <=? 90))
     || ((192 <=? n) && (n <=? 222) && negb (n =? 215))
  then ascii_of_nat (n + 32) else c.

Definition lower (s : str) : str := map lower_char s.

(** Slices [s[:stop]] and [s[start:]] with Python's treatment of negative
    and out-of-range bounds. *)
Definition clamp_index (len i : Z) : nat :=
  let j := if (i <? 0)%Z then (i + len)%Z else i in
  Z.to_nat (Z.min len (Z.max 0 j)).

Definition slice_to (T : Type) (stop : Z) (s : list T) : list T :=
  firstn (clamp_index (Z.of_nat (length s)) stop) s.

Definition slice_from (T : Type) (start : Z) (s : list T) : list T :=
  skipn (clamp_index (Z.of_nat (length s)) start) s.

(** [s.endswith(suffix)]: the last [len(suffix)] characters are compared. *)
Fixpoint str_eqb (a b : str) : bool :=
  match a, b with
  | [], [] => true
  | x :: a', y :: b' => Ascii.eqb x y && str_eqb a' b'
  | _, _ => false
  end.

Definition endswith (s suffix : str) : bool :=
  (length suffix <=? length s)
  && str_eqb (skipn (length s - length suffix) s) suffix.

(** [str.strip()] as CPython computes it: [i] runs over the leading
    whitespace, [j] backs over the trailing whitespace down to [i], and the
    result is [s[i:j]]. *)
Fixpoint count_leading (s : str) : nat :=
  match s with
  | c :: r => if isspace c then S (count_leading r) else 0
  | [] => 0
  end.

Definition strip (s : str) : str :=
  let i := count_leading s in
  let rest := skipn i s in
  let k := count_leading (rev rest) in
  firstn (length rest - k) rest.

Definition dot : ascii := "."%char.
Definition space : ascii := " "%char.

End PyStr.

Import PyStr.

(* ================================================================== *)
(** * Configuration                                                    *)
(* ================================================================== *)

(** [configurations/recording_mode.py] *)
Inductive RecordingMode : Type :=
| VOICE_ACTIVITY_DETECTION
| PRESS_TO_TOGGLE
| HOLD_TO_RECORD
| CONTINUOUS.

(** [RecordingMode.X.value] *)
Definition value (m : RecordingMode) : string :=
  match m with
  | VOICE_ACTIVITY_DETECTION => "voice_activity_detection"
  | PRESS_TO_TOGGLE => "press_to_toggle"
  | HOLD_TO_RECORD => "hold_to_record"
  | CONTINUOUS => "continuous"
  end.

(** What the attribute [config.recording_mode] can hold: a member of the
    enumeration (what [Configuration] stores) or a bare string (what the
    dictionary configuration of [main.py] stores). *)
Inductive ModeValue : Type :=
| Member (m : RecordingMode)
| Name (s : string).

(** [config.recording_mode == RecordingMode.X.value]: the right-hand side is
    a [str].  [RecordingMode] derives from plain [Enum], whose members never
    compare equal to a value that is not a member, so the test succeeds only
    when the attribute itself is the string. *)
Definition mode_is (v : ModeValue) (m : RecordingMode) : bool :=
  match v with
  | Member _ => false
  | Name s => String.eqb s (value m)
  end.

(** The fields of [Configuration] that [TranscriptionService] reads. *)
Record Configuration : Type := {
  use_api : bool;
  recording_mode : ModeValue;
  sample_rate : Z;
  silence_duration : Z;
  remove_trailing_period : bool;
  add_trailing_space : bool;
  remove_capitalization : bool
}.

(** [Configuration.validate_configuration]: anything but a member of the
    enumeration raises [ValueError]. *)
Definition validate_configuration (c : Configuration) : bool :=
  match recording_mode c with Member _ => true | Name _ => false end.

(** The defaults of [Configuration.__init__]. *)
Definition default_configuration : Configuration := {|
  use_api := false;
  recording_mode := Member VOICE_ACTIVITY_DETECTION;
  sample_rate := 16000;
  silence_duration := 900;
  remove_trailing_period := true;
  add_trailing_space := false;
  remove_capitalization := false
|}.

Definition with_mode (v : ModeValue) (c : Configuration) : Configuration := {|
  use_api := use_api c;
  recording_mode := v;
  sample_rate := sample_rate c;
  silence_duration := silence_duration c;
  remove_trailing_period := remove_trailing_period c;
  add_trailing_space := add_trailing_space c;
  remove_capitalization := remove_capitalization c
|}.

(* ================================================================== *)
(** * Post-processing                                                  *)
(* ================================================================== *)

(** [TranscriptionService.post_process_transcription] *)
Definition post_process_transcription (config : Configuration)
    (transcription : str) : str :=
  let transcription := strip transcription in
  let transcription :=
    if remove_trailing_period config && endswith transcription [dot]
    then slice_to (-1) transcription else transcription in
  let transcription :=
    if add_trailing_space config then transcription ++ [space]
    else transcription in
  let transcription :=
    if remove_capitalization config then lower transcription
    else transcription in
  transcription.

(** The pipeline as the specification words it, one step per sentence. *)
Module Pipeline.

Fixpoint trim_left (s : str) : str :=
  match s with
  | c :: r => if isspace c then trim_left r else s
  | [] => []
  end.

Fixpoint trim_right (s : str) : str :=
  match s with
  | [] => []
  | c :: r =>
      match trim_right r with
      | [] => if isspace c then [] else [c]
      | r' => c :: r'
      end
  end.

Definition trim (s : str) : str := trim_right (trim_left s).

Definition ends_with_period (s : str) : bool :=
  match rev s with
  | c :: _ => Ascii.eqb c dot
  | [] => false
  end.

Definition drop_final_char (s : str) : str := removelast s.

Definition step1 (s : str) : str := trim s.
Definition step2 (c : Configuration) (s : str) : str :=
  if remove_trailing_period c
  then (if ends_with_period s then drop_final_char s else s)
  else s.
Definition step3 (c : Configuration) (s : str) : str :=
  if add_trailing_space c then s ++ [space] else s.
Definition step4 (c : Configuration) (s : str) : str :=
  if remove_capitalization c then map lower_char s else s.

Definition run (c : Configuration) (s : str) : str :=
  step4 c (step3 c (step2 c (step1 s))).

End Pipeline.

(** The text after the first two steps: trimmed, and without its final
    period when [remove_trailing_period] asks for that. *)
Definition trimmed_core (config : Configuration) (text : str) : str :=
  let t := strip text in
  if remove_trailing_period config && endswith t [dot]
  then slice_to (-1) t else t.

(* ================================================================== *)
(** * The world of a session                                           *)
(* ================================================================== *)

(** An exception, by the name of its class.  Everything the collaborators
    raise (sounddevice, keyboard, webrtcvad, wave, faster_whisper, openai)
    derives from [Exception]. *)
Definition exn := string.

(** What a collaborator answers when called. *)
Inductive answer (A : Type) : Type :=
| Ok (a : A)
| Fails (e : exn).
Arguments Fails {A} e.

(** A finished audio file, as [wave] writes it. *)
Record WavFile : Type := {
  wav_path : str;
  nchannels : Z;
  sampwidth : Z;
  framerate : Z;
  frames : list Z
}.

Inductive Backend : Type := LocalModel | RemoteAPI.

(** [(kind, message)] as put on the status queue. *)
Definition StatusEvent : Type := (string * string)%type.

(** The state a session acts on. *)
Record World : Type := {
  status_queue : list StatusEvent;   (* oldest first *)
  flag_reads : nat;                  (* calls of [cancel_flag()] so far *)
  files : list WavFile;              (* audio files written, oldest first *)
  backend_calls : list (Backend * str);
  local_model : bool                 (* [self.local_model] is loaded *)
}.

(** One turn of the [while] loop of [record], as the outside shows itself
    to it: the samples this turn finds added to [buffer] since the previous
    turn, what [keyboard.is_pressed(activation_key)] answers and what
    [vad.is_speech] answers on the frame of this turn.

    The callback that adds the samples runs on the thread of the stream, at
    any time.  A block added before line 98 has sliced the list is found by
    this turn or, [buffer[N:]] keeping it, by the next, which comes to the
    same.  A block added after line 98 has rebound [buffer] is found by the
    next turn.  A block added between the slice [buffer[N:]] and the
    rebinding of [buffer] goes to the list that is dropped: no turn finds it,
    and it is in no [arrived].  So [arrived] is what reaches the loop, not
    all that the device delivers. *)
Record Tick : Type := {
  arrived : list Z;
  pressed : answer bool;
  speech : answer bool
}.

(** Everything outside the service during one session. *)
Record Env : Type := {
  cancel_set_at : option nat;
    (* [Some n]: the thread's [stop()] runs after exactly [n] calls of
       [cancel_flag()]; the first [n] calls answer [False], every later one
       [True].  [None]: never cancelled. *)
  open_stream : option exn;          (* entering [sd.InputStream] *)
  ticks : list Tick;
  close_stream : option exn;         (* leaving [sd.InputStream] *)
  temp_file : answer str;            (* [NamedTemporaryFile]: stem of the name *)
  write_wave : option exn;           (* [wave.open] ... [writeframes] *)
  load_model : option exn;           (* [WhisperModel] on the chosen device *)
  load_model_cpu : option exn;       (* [WhisperModel] on the CPU *)
  local_transcribe : str -> answer (list str);
    (* the texts of the segments the local model decodes, in order *)
  api_transcribe : str -> answer str
}.

(** How a computation ends: it returns, it raises, or the capture loop is
    still turning when the ticks of the environment are used up. *)
Inductive outcome (A : Type) : Type :=
| Ret (a : A)
| Raise (e : exn)
| Spin.
Arguments Raise {A} e.
Arguments Spin {A}.

Definition M (A : Type) : Type := World -> outcome A * World.

Definition ret (A : Type) (a : A) : M A := fun w => (Ret a, w).

Definition bind (A B : Type) (m : M A) (k : A -> M B) : M B :=
  fun w =>
    match m w with
    | (Ret a, w1) => k a w1
    | (Raise e, w1) => (Raise e, w1)
    | (Spin, w1) => (Spin, w1)
    end.

Definition raise (A : Type) (e : exn) : M A := fun w => (Raise e, w).
Arguments raise {A} e.

Definition spin (A : Type) : M A := fun w => (Spin, w).
Arguments spin {A}.

(** [try: m except Exception as e: handler e] *)
Definition try_except (A : Type) (m : M A) (handler : exn -> M A) : M A :=
  fun w =>
    match m w with
    | (Raise e, w1) => handler e w1
    | r => r
    end.

Declare Scope session_scope.
Delimit Scope session_scope with session.
Notation "x <- m ;; k" := (bind m (fun x => k))
  (at level 61, m at next level, right associativity) : session_scope.
Notation "m ;;; k" := (bind m (fun _ => k))
  (at level 61, right associativity) : session_scope.
Open Scope session_scope.

(** Calling a collaborator. *)
Definition ask (A : Type) (a : answer A) : M A :=
  match a with
  | Ok v => ret v
  | Fails e => raise e
  end.

Definition attempt (o : option exn) : M unit :=
  match o with
  | None => ret tt
  | Some e => raise e
  end.

(** [status_queue.put(ev)] *)
Definition put (ev : StatusEvent) : M unit :=
  fun w => (Ret tt,
            {| status_queue := status_queue w ++ [ev];
               flag_reads := flag_reads w;
               files := files w;
               backend_calls := backend_calls w;
               local_model := local_model w |}).

(** [cancel_flag()], that is [lambda: self.stop_transcription]. *)
Definition flag_at (env : Env) (reads : nat) : bool :=
  match cancel_set_at env with
  | Some n => n <=? reads
  | None => false
  end.

Definition cancel_flag (env : Env) : M bool :=
  fun w => (Ret (flag_at env (flag_reads w)),
            {| status_queue := status_queue w;
               flag_reads := S (flag_reads w);
               files := files w;
               backend_calls := backend_calls w;
               local_model := local_model w |}).

Definition save_file (f : WavFile) : M unit :=
  fun w => (Ret tt,
            {| status_queue := status_queue w;
               flag_reads := flag_reads w;
               files := files w ++ [f];
               backend_calls := backend_calls w;
               local_model := local_model w |}).

Definition note_call (b : Backend) (path : str) : M unit :=
  fun w => (Ret tt,
            {| status_queue := status_queue w;
               flag_reads := flag_reads w;
               files := files w;
               backend_calls := backend_calls w ++ [(b, path)];
               local_model := local_model w |}).

Definition model_loaded : M bool := fun w => (Ret (local_model w), w).

Definition set_model_loaded : M unit :=
  fun w => (Ret tt,
            {| status_queue := status_queue w;
               flag_reads := flag_reads w;
               files := files w;
               backend_calls := backend_calls w;
               local_model := true |}).

(** [with sd.InputStream(...): body].  The stream is closed however the
    body ends; an error on closing replaces the one of the body. *)
Definition with_stream (A : Type) (env : Env) (body : M A) : M A :=
  attempt (open_stream env) ;;;
  fun w =>
    match body w with
    | (Ret a, w1) =>
        match close_stream env with
        | None => (Ret a, w1)
        | Some e => (Raise e, w1)
        end
    | (Raise e, w1) =>
        match close_stream env with
        | None => (Raise e, w1)
        | Some e' => (Raise e', w1)
        end
    | (Spin, w1) => (Spin, w1)
    end.

(* ================================================================== *)
(** * TranscriptionService                                             *)
(* ================================================================== *)

Definition len (T : Type) (l : list T) : Z := Z.of_nat (length l).

(** The local variables of [record] that the loop changes. *)
Record Locals : Type := {
  buffer : list Z;
  recording : list Z;
  num_silent_frames : Z
}.

Definition initial_locals : Locals :=
  {| buffer := []; recording := []; num_silent_frames := 0 |}.

Definition frame_duration : Z := 30.
Definition buffer_duration : Z := 300.

(** [sample_rate * frame_duration // 1000] *)
Definition frame_samples (config : Configuration) : Z :=
  (sample_rate config * frame_duration / 1000)%Z.

(** [num_silence_frames = silence_duration // frame_duration] *)
Definition num_silence_frames (config : Configuration) : Z :=
  (silence_duration config / frame_duration)%Z.

(** The stream callback, [buffer.extend(indata[:, 0])], for the samples
    that reach the loop (see [Tick]). *)
Definition receive (samples : list Z) (st : Locals) : Locals :=
  {| buffer := buffer st ++ samples;
     recording := recording st;
     num_silent_frames := num_silent_frames st |}.

Definition set_buffer (b : list Z) (st : Locals) : Locals :=
  {| buffer := b;
     recording := recording st;
     num_silent_frames := num_silent_frames st |}.

(** [recording.extend(frame)] *)
Definition extend (frame : list Z) (st : Locals) : Locals :=
  {| buffer := buffer st;
     recording := recording st ++ frame;
     num_silent_frames := num_silent_frames st |}.

Definition set_silent (n : Z) (st : Locals) : Locals :=
  {| buffer := buffer st;
     recording := recording st;
     num_silent_frames := n |}.

(** How the body of one turn ends: with [break], or by falling through to
    the next turn. *)
Inductive flow : Type :=
| Break (st : Locals)
| Next (st : Locals).

(** The branch under
    [if self.config.recording_mode == RecordingMode.PRESS_TO_TOGGLE.value]. *)
Definition press_to_toggle_branch (t : Tick) (frame : list Z) (st : Locals)
    : M flow :=
  if (0 <? len (recording st))%Z
  then p <- ask (pressed t) ;;
       if p then ret (Break st) else ret (Next (extend frame st))
  else ret (Next (extend frame st)).

(** The branch under [... == RecordingMode.HOLD_TO_RECORD.value]. *)
Definition hold_to_record_branch (t : Tick) (frame : list Z) (st : Locals)
    : M flow :=
  p <- ask (pressed t) ;;
  if p then ret (Next (extend frame st)) else ret (Break st).

(** The branch under [... == RecordingMode.VOICE_ACTIVITY_DETECTION.value]. *)
Definition voice_activity_branch (config : Configuration) (t : Tick)
    (frame : list Z) (st : Locals) : M flow :=
  is_speech <- ask (speech t) ;;
  if is_speech
  then ret (Next (set_silent 0 (extend frame st)))
  else
    let st := if (0 <? len (recording st))%Z
              then set_silent (num_silent_frames st + 1) st else st in
    if (num_silence_frames config <=? num_silent_frames st)%Z
    then ret (Break st) else ret (Next st).

(** The statements under the inner [if not cancel_flag()]: one [if] for
    press-to-toggle, then an [if]/[elif] for hold-to-record and voice
    activity detection.  No branch names the continuous mode. *)
Definition mode_logic (config : Configuration) (t : Tick) (frame : list Z)
    (st : Locals) : M flow :=
  f <- (if mode_is (recording_mode config) PRESS_TO_TOGGLE
        then press_to_toggle_branch t frame st
        else ret (Next st)) ;;
  match f with
  | Break st' => ret (Break st')
  | Next st' =>
      if mode_is (recording_mode config) HOLD_TO_RECORD
      then hold_to_record_branch t frame st'
      else if mode_is (recording_mode config) VOICE_ACTIVITY_DETECTION
      then voice_activity_branch config t frame st'
      else ret (Next st')
  end.

(** Where the [while] loop stands after the ticks it was given. *)
Inductive LoopExit : Type :=
| Cancelled   (* left: [cancel_flag()] answered [True] at the top *)
| Stopped     (* left by [break] *)
| Turning.    (* not left: the ticks are used up, the loop still turns *)

(** [while not cancel_flag(): ...], one tick of the environment per turn.
    The samples of a tick are put on [buffer] before the length is tested:
    they are those the turn finds, whenever in the turn the callback ran (see
    [Tick]).  The locals are returned as they stand when the loop is left, or
    when the ticks run out. *)
Fixpoint capture_loop (config : Configuration) (env : Env) (ts : list Tick)
    (st : Locals) {struct ts} : M (LoopExit * Locals) :=
  match ts with
  | [] => ret (Turning, st)
  | t :: ts' =>
      c <- cancel_flag env ;;
      if c : bool then ret (Cancelled, st)
      else
        let st := receive (arrived t) st in
        if (len (buffer st) <? frame_samples config)%Z
        then capture_loop config env ts' st
        else
          let frame := slice_to (frame_samples config) (buffer st) in
          let st :=
            set_buffer (slice_from (frame_samples config) (buffer st)) st in
          c' <- cancel_flag env ;;
          if c' : bool then capture_loop config env ts' st
          else
            f <- mode_logic config t frame st ;;
            match f with
            | Break st' => ret (Stopped, st')
            | Next st' => capture_loop config env ts' st'
            end
  end.

(** [audio_data.tobytes()] for [int16] samples: two bytes each, low byte
    first. *)
Definition tobytes (samples : list Z) : list Z :=
  flat_map (fun z => [(z mod 256)%Z; ((z / 256) mod 256)%Z]) samples.

(** The part of [record] under [try:]. *)
Definition record_body (config : Configuration) (env : Env) : M str :=
  st <- with_stream env
          (r <- capture_loop config env (ticks env) initial_locals ;;
           match fst r with
           | Turning => spin
           | _ => ret (snd r)
           end) ;;
  c <- cancel_flag env ;;
  if c : bool
  then put ("cancel"%string, ""%string) ;;; ret []
  else
    let audio_data := recording st in
    stem <- ask (temp_file env) ;;
    let name := stem ++ lit ".wav" in
    attempt (write_wave env) ;;;
    save_file {| wav_path := name;
                 nchannels := 1;
                 sampwidth := 2;
                 framerate := sample_rate config;
                 frames := tobytes audio_data |} ;;;
    ret name.

(** [TranscriptionService.record] *)
Definition record (config : Configuration) (env : Env) : M str :=
  try_except (record_body config env)
    (fun _ => put ("error"%string, "Error"%string) ;;; ret []).

(** [TranscriptionService.create_local_model] *)
Definition create_local_model (env : Env) : M unit :=
  try_except (attempt (load_model env))
    (fun _ => attempt (load_model_cpu env)).

(** [TranscriptionService.transcribe_local] *)
Definition transcribe_local (env : Env) (temp_audio_file : str) : M str :=
  loaded <- model_loaded ;;
  (if loaded : bool then ret tt
   else create_local_model env ;;; set_model_loaded) ;;;
  note_call LocalModel temp_audio_file ;;;
  segments <- ask (local_transcribe env temp_audio_file) ;;
  ret (concat segments).

(** [TranscriptionService.transcribe_api].  [api_transcribe] answers for
    the whole of lines 59-73: reading the environment, building the client,
    opening the file and the request itself.  The call is noted on entry, so
    a noted call to [RemoteAPI] that fails may have failed before the request
    was sent; a call that answers a text has been sent. *)
Definition transcribe_api (env : Env) (temp_audio_file : str) : M str :=
  note_call RemoteAPI temp_audio_file ;;;
  ask (api_transcribe env temp_audio_file).

(** [TranscriptionService.transcribe] *)
Definition transcribe (config : Configuration) (env : Env)
    (audio_file : str) : M str :=
  if negb (truthy audio_file) then ret []
  else
    put ("transcribing"%string, "Transcribing..."%string) ;;;
    transcription <- (if use_api config
                      then transcribe_api env audio_file
                      else transcribe_local env audio_file) ;;
    ret (post_process_transcription config transcription).

(** [TranscriptionService.record_and_transcribe] *)
Definition record_and_transcribe (config : Configuration) (env : Env)
    : M str :=
  audio_file <- record config env ;;
  c <- cancel_flag env ;;
  if c : bool then ret []
  else transcribe config env audio_file.

(** The world when the shortcut fires: [on_shortcut] has emptied the queue
    and put the [recording] event. *)
Definition fresh_world : World :=
  {| status_queue := [("recording"%string, "Recording..."%string)];
     flag_reads := 0;
     files := [];
     backend_calls := [];
     local_model := false |}.

(* ================================================================== *)
(** * Sessions used as examples                                        *)
(* ================================================================== *)

(** A studio where nothing fails and nobody cancels; the backends answer
    the text of the end-to-end example. *)
Definition studio (ts : list Tick) : Env :=
  {| cancel_set_at := None;
     open_stream := None;
     ticks := ts;
     close_stream := None;
     temp_file := Ok (lit "/tmp/tmpk3v9");
     write_wave := None;
     load_model := None;
     load_model_cpu := None;
     local_transcribe := fun _ => Ok [lit " test"; lit " transcription."];
     api_transcribe := fun _ => Ok (lit "test transcription.") |}.

(** The same studio, [stop()] being called after [n] readings of the flag. *)
Definition cancelled_after (n : nat) (e : Env) : Env :=
  {| cancel_set_at := Some n;
     open_stream := open_stream e;
     ticks := ticks e;
     close_stream := close_stream e;
     temp_file := temp_file e;
     write_wave := write_wave e;
     load_model := load_model e;
     load_model_cpu := load_model_cpu e;
     local_transcribe := local_transcribe e;
     api_transcribe := api_transcribe e |}.

(** The same studio with backends that fail. *)
Definition backends_down (e : Env) : Env :=
  {| cancel_set_at := cancel_set_at e;
     open_stream := open_stream e;
     ticks := ticks e;
     close_stream := close_stream e;
     temp_file := temp_file e;
     write_wave := write_wave e;
     load_model := load_model e;
     load_model_cpu := load_model_cpu e;
     local_transcribe := fun _ => Fails "RuntimeError"%string;
     api_transcribe := fun _ => Fails "APIConnectionError"%string |}.

(** The same studio with a microphone that cannot be opened. *)
Definition no_microphone (e : Env) : Env :=
  {| cancel_set_at := cancel_set_at e;
     open_stream := Some "PortAudioError"%string;
     ticks := ticks e;
     close_stream := close_stream e;
     temp_file := temp_file e;
     write_wave := write_wave e;
     load_model := load_model e;
     load_model_cpu := load_model_cpu e;
     local_transcribe := local_transcribe e;
     api_transcribe := api_transcribe e |}.

(** One frame at 16 kHz: 480 samples. *)
Definition frame16k : list Z := repeat 7%Z 480.

(** A turn in which one whole frame has arrived, with the key and the
    speech detector answering [key] and [voice]. *)
Definition frame_tick (key voice : bool) : Tick :=
  {| arrived := frame16k; pressed := Ok key; speech := Ok voice |}.

(** A turn in which nothing has arrived. *)
Definition idle_tick (key : bool) : Tick :=
  {| arrived := []; pressed := Ok key; speech := Ok false |}.

Definition named (m : RecordingMode) : Configuration :=
  with_mode (Name (value m)) default_configuration.

Definition member (m : RecordingMode) : Configuration :=
  with_mode (Member m) default_configuration.

(* ================================================================== *)
(** * Vocabulary of the statements                                   *)
(* ================================================================== *)

(** Reading the flag [k] more times. *)
Definition after_reads (k : nat) (w : World) : World :=
  {| status_queue := status_queue w;
     flag_reads := k + flag_reads w;
     files := files w;
     backend_calls := backend_calls w;
     local_model := local_model w |}.

(** Two worlds that differ at most in the number of readings of the flag. *)
Definition same_effects (w w' : World) : Prop :=
  status_queue w' = status_queue w /\
  files w' = files w /\
  backend_calls w' = backend_calls w /\
  local_model w' = local_model w /\
  flag_reads w <= flag_reads w'.

(** The world after [status_queue.put(ev)]. *)
Definition queued (ev : StatusEvent) (w : World) : World := snd (put ev w).

(** The world after an audio file has been written. *)
Definition stored (f : WavFile) (w : World) : World := snd (save_file f w).

(** The world after a backend has been called on [path]. *)
Definition called (b : Backend) (path : str) (w : World) : World :=
  snd (note_call b path w).

Definition cancel_event : StatusEvent := ("cancel"%string, ""%string).
Definition error_event : StatusEvent := ("error"%string, "Error"%string).
Definition transcribing_event : StatusEvent :=
  ("transcribing"%string, "Transcribing..."%string).

(** The audio file [record] writes for the samples [samples]. *)
Definition artifact (config : Configuration) (stem : str) (samples : list Z)
    : WavFile :=
  {| wav_path := stem ++ lit ".wav";
     nchannels := 1;
     sampwidth := 2;
     framerate := sample_rate config;
     frames := tobytes samples |}.

(** What [record_body] does once the loop has been left with the locals
    [st] in the world [w1]. *)
Definition after_loop (config : Configuration) (env : Env) (st : Locals)
    (w1 : World) : outcome str * World :=
  match close_stream env with
  | Some e => (Raise e, w1)
  | None =>
      if flag_at env (flag_reads w1)
      then (Ret [], queued cancel_event (after_reads 1 w1))
      else
        match temp_file env with
        | Fails e => (Raise e, after_reads 1 w1)
        | Ok stem =>
            match write_wave env with
            | Some e => (Raise e, after_reads 1 w1)
            | None =>
                (Ret (stem ++ lit ".wav"),
                 stored (artifact config stem (recording st))
                   (after_reads 1 w1))
            end
        end
  end.

(** Some branch of the mode logic answers to the configured mode. *)
Definition handled (config : Configuration) : bool :=
  mode_is (recording_mode config) PRESS_TO_TOGGLE
  || mode_is (recording_mode config) HOLD_TO_RECORD
  || mode_is (recording_mode config) VOICE_ACTIVITY_DETECTION.

(** A turn in which exactly one frame has arrived. *)
Definition whole_frame (config : Configuration) (t : Tick) : Prop :=
  len (arrived t) = frame_samples config.

(** A whole frame, key not pressed. *)
Definition released_frame (config : Configuration) (t : Tick) : Prop :=
  whole_frame config t /\ pressed t = Ok false.

(** A whole frame the detector hears no speech in. *)
Definition silent_frame (config : Configuration) (t : Tick) : Prop :=
  whole_frame config t /\ speech t = Ok false.

(** The samples of all the frames of [ts]. *)
Definition samples_of (ts : list Tick) : list Z := flat_map arrived ts.

(** The key is down in this turn. *)
Definition key_down (t : Tick) : Prop := pressed t = Ok true.

(** The turn [t], coming upon the locals [st], finds a whole frame on the
    buffer. *)
Definition finds_frame (config : Configuration) (st : Locals) (t : Tick)
    : Prop :=
  (frame_samples config <= len (buffer st ++ arrived t))%Z.

(** The turns [ts], coming upon the locals [st], find no whole frame: every
    one of them ends at [continue]. *)
Definition waits (config : Configuration) (st : Locals) (ts : list Tick)
    : Prop :=
  (len (buffer st ++ samples_of ts) < frame_samples config)%Z.



(** The recording is made of frames of [frame_samples] samples. *)
Definition whole_frames (config : Configuration) (st : Locals) : Prop :=
  exists k, len (recording st) = (Z.of_nat k * frame_samples config)%Z.

(** A turn in which the callback has delivered [n] samples of value [v],
    the key being up. *)
Definition block (n : nat) (v : Z) : Tick :=
  {| arrived := repeat v n; pressed := Ok false; speech := Ok false |}.

(* ================================================================== *)
(** * Building a configuration                                         *)
(* ================================================================== *)

(** [RecordingMode(s)]: the member whose value is [s]; [ValueError] when
    there is none. *)
Definition RecordingMode_of (s : string) : answer RecordingMode :=
  if String.eqb s "voice_activity_detection" then Ok VOICE_ACTIVITY_DETECTION
  else if String.eqb s "press_to_toggle" then Ok PRESS_TO_TOGGLE
  else if String.eqb s "hold_to_record" then Ok HOLD_TO_RECORD
  else if String.eqb s "continuous" then Ok CONTINUOUS
  else Fails "ValueError"%string.

(** [[mode.value for mode in RecordingMode]], the choices that
    [--recording-mode] offers in [run-cli.py]. *)
Definition recording_mode_choices : list string :=
  map value
    [VOICE_ACTIVITY_DETECTION; PRESS_TO_TOGGLE; HOLD_TO_RECORD; CONTINUOUS].

(** [Configuration.__init__], for the fields modelled: the attributes are
    set, then [validate_configuration] raises [ValueError] unless the mode is
    a member. *)
Definition Configuration_init (use_api : bool) (recording_mode : ModeValue)
    (sample_rate silence_duration : Z)
    (remove_trailing_period add_trailing_space remove_capitalization : bool)
    : answer Configuration :=
  let c := {| use_api := use_api;
              recording_mode := recording_mode;
              sample_rate := sample_rate;
              silence_duration := silence_duration;
              remove_trailing_period := remove_trailing_period;
              add_trailing_space := add_trailing_space;
              remove_capitalization := remove_capitalization |} in
  if validate_configuration c then Ok c else Fails "ValueError"%string.

(** The parameters of [APIOptions.__init__] and of
    [LocalModelOptions.__init__]. *)
Definition api_option_names : list string :=
  ["model"; "language"; "temperature"; "initial_prompt"]%string.

Definition local_model_option_names : list string :=
  ["model"; "device"; "compute_type"; "language"; "temperature";
   "initial_prompt"; "condition_on_previous_text"; "vad_filter"]%string.

(** An options class called with the entries of a dictionary as keyword
    arguments, [keys] being its keys: a key that is no parameter raises
    [TypeError]. *)
Definition accepts (names keys : list string) : bool :=
  forallb (fun k => existsb (String.eqb k) names) keys.

(** A configuration dictionary whose entries, where present, have the
    types the constructor annotates; [None] is a key that is absent.  Of the
    two nested dictionaries only the keys matter here. *)
Record ConfigDict : Type := {
  d_use_api : option bool;
  d_api_options : option (list string);
  d_local_model_options : option (list string);
  d_recording_mode : option string;
  d_sample_rate : option Z;
  d_silence_duration : option Z;
  d_remove_trailing_period : option bool;
  d_add_trailing_space : option bool;
  d_remove_capitalization : option bool
}.

(** [config_dict.get(key, default)] *)
Definition get (A : Type) (entry : option A) (default : A) : A :=
  match entry with
  | Some v => v
  | None => default
  end.

(** [Configuration.from_dict]: the arguments are evaluated in the order of
    the call, the nested options first, then the mode. *)
Definition from_dict (config_dict : ConfigDict) : answer Configuration :=
  if negb (accepts api_option_names (get (d_api_options config_dict) []))
  then Fails "TypeError"%string
  else if negb (accepts local_model_option_names
                  (get (d_local_model_options config_dict) []))
  then Fails "TypeError"%string
  else
    match RecordingMode_of
            (get (d_recording_mode config_dict)
               "voice_activity_detection"%string)
    with
    | Fails e => Fails e
    | Ok m =>
        Configuration_init
          (get (d_use_api config_dict) false)
          (Member m)
          (get (d_sample_rate config_dict) 16000%Z)
          (get (d_silence_duration config_dict) 900%Z)
          (get (d_remove_trailing_period config_dict) true)
          (get (d_add_trailing_space config_dict) false)
          (get (d_remove_capitalization config_dict) false)
    end.

Definition empty_dict : ConfigDict :=
  {| d_use_api := None; d_api_options := None;
     d_local_model_options := None; d_recording_mode := None;
     d_sample_rate := None; d_silence_duration := None;
     d_remove_trailing_period := None; d_add_trailing_space := None;
     d_remove_capitalization := None |}.

(** The world once the local model is loaded. *)
Definition loaded (w : World) : World := snd (set_model_loaded w).

(* ================================================================== *)
(** * The command-line application ([run-cli.py])                      *)
(* ================================================================== *)

Definition mem (k : string) (l : list string) : bool :=
  existsb (String.eqb k) l.

Fixpoint distinct (l : list string) : bool :=
  match l with
  | [] => true
  | k :: r => negb (mem k r) && distinct r
  end.

(** A call [f(a1, ..., an, k1=..., ..., km=...)] of a function whose
    parameters [params] are plain names without defaults ([self] apart):
    [TypeError] when there are too many positional arguments, when a keyword
    is given twice or names no parameter or a parameter already filled by
    position, or when a parameter is left without a value. *)
Definition bind_arguments (params : list string) (n_positional : nat)
    (keywords : list string) : option exn :=
  if (length params <? n_positional)
     || negb (distinct keywords)
     || existsb (fun k => negb (mem k params)) keywords
     || existsb (fun k => mem k (firstn n_positional params)) keywords
     || existsb (fun p => negb (mem p keywords)) (skipn n_positional params)
  then Some "TypeError"%string
  else None.

(** [def record_and_transcribe(self, status_queue, cancel_flag)] *)
Definition record_and_transcribe_params : list string :=
  ["status_queue"; "cancel_flag"]%string.

(** [ResultThread.run] followed by [join()], seen from the thread that
    joins: [self.result] when the target has returned; [None] when the call
    or the target raised (the exception stays in the thread). *)
Definition run_and_join (params : list string) (n_args : nat)
    (kwargs : list string) (target : M str) : M (option str) :=
  match bind_arguments params n_args ("cancel_flag"%string :: kwargs) with
  | Some _ => ret None
  | None =>
      fun w =>
        match target w with
        | (Ret text, w') => (Ret (Some text), w')
        | (Raise _, w') => (Ret None, w')
        | (Spin, w') => (Spin, w')
        end
  end.

(** What reaches the keyboard controller and [time.sleep]. *)
Inductive KeyEvent : Type :=
| Press (c : ascii)
| Release (c : ascii)
| Sleep (interval : string).

(** [typewrite] *)
Definition typewrite (text : str) (interval : string) : list KeyEvent :=
  flat_map (fun letter => [Press letter; Release letter; Sleep interval])
    text.

(** The fields of [Configuration] that [WhisperWriterCli.on_shortcut] reads
    besides those of the service; the delay is kept as written. *)
Record CliConfiguration : Type := {
  service_config : Configuration;
  hide_status_window : bool;
  noise_on_completion : bool;
  writing_key_press_delay : string
}.

Record CliWorld : Type := {
  service_world : World;
  keyboard : list KeyEvent;   (* oldest first *)
  beeps : nat                 (* times [beep.wav] was played *)
}.

(** [clear_status_queue] followed by [put(('recording', 'Recording...'))] *)
Definition announce_recording (w : World) : World :=
  {| status_queue := [("recording"%string, "Recording..."%string)];
     flag_reads := flag_reads w;
     files := files w;
     backend_calls := backend_calls w;
     local_model := local_model w |}.

(** [WhisperWriterCli.on_shortcut].  [window_alive] is what
    [status_window.is_alive()] answers after the join; the status window and
    the audio player themselves are taken not to fail. *)
Definition on_shortcut (config : CliConfiguration) (env : Env)
    (window_alive : bool) (cw : CliWorld) : outcome unit * CliWorld :=
  let w0 := announce_recording (service_world cw) in
  match run_and_join record_and_transcribe_params 1
          ["config"; "local_model"]%string
          (record_and_transcribe (service_config config) env) w0 with
  | (Ret transcribed_text, w1) =>
      let w2 := if negb (hide_status_window config) && window_alive
                then queued cancel_event w1 else w1 in
      let typed :=
        match transcribed_text with
        | Some text =>
            if truthy text
            then typewrite text (writing_key_press_delay config)
            else []
        | None => []
        end in
      (Ret tt,
       {| service_world := w2;
          keyboard := keyboard cw ++ typed;
          beeps := if noise_on_completion config
                   then S (beeps cw) else beeps cw |})
  | (Raise e, w1) =>
      (Raise e, {| service_world := w1; keyboard := keyboard cw;
                   beeps := beeps cw |})
  | (Spin, w1) =>
      (Spin, {| service_world := w1; keyboard := keyboard cw;
                beeps := beeps cw |})
  end.

(* ================================================================== *)
(** * [format_keystrokes]                                              *)
(* ================================================================== *)

(** The code points U+0000..U+007F. *)
Definition is_ascii7 (c : ascii) : bool := code c <? 128.

(** [str.upper] on one character of U+0000..U+007F: a..z move down by 32.
    Beyond U+007F [str.upper] also moves the letters of U+00E0..U+00FE and
    takes some characters out of U+0000..U+00FF; what is proved of
    [format_keystrokes] is proved of key strings within U+0000..U+007F. *)
Definition upper_char (c : ascii) : ascii :=
  let n := code c in
  if (97 <=? n) && (n <=? 122) then ascii_of_nat (n - 32) else c.

(** [str.capitalize] on such characters: the first in upper case, the rest
    in lower case. *)
Definition capitalize (s : str) : str :=
  match s with
  | [] => []
  | c :: r => upper_char c :: lower r
  end.

(** [s.split(sep)] for a separator of one character: the pieces between
    the separators, empty ones included; never the empty list. *)
Fixpoint split_on (sep : ascii) (s : str) : list str :=
  match s with
  | [] => [[]]
  | c :: r =>
      if Ascii.eqb c sep then [] :: split_on sep r
      else match split_on sep r with
           | piece :: pieces => (c :: piece) :: pieces
           | [] => [[c]]
           end
  end.

(** [sep.join(pieces)] *)
Fixpoint join (sep : ascii) (pieces : list str) : str :=
  match pieces with
  | [] => []
  | [piece] => piece
  | piece :: rest => piece ++ sep :: join sep rest
  end.

Definition plus : ascii := "+"%char.

(** [format_keystrokes]:
    ['+'.join(word.capitalize() for word in key_string.split('+'))] *)
Definition format_keystrokes (key_string : str) : str :=
  join plus (map capitalize (split_on plus key_string)).

(** No character of [s] is [sep]. *)
Definition free_of (sep : ascii) (s : str) : bool :=
  forallb (fun c => negb (Ascii.eqb c sep)) s.

(* ================================================================== *)
(** * The configuration file of [main.py]                              *)
(* ================================================================== *)

(** A value read by [json.load]; a float is kept as it is written. *)
#[warnings="-register-all"] Inductive Json : Type :=
| JNull
| JBool (b : bool)
| JInt (z : Z)
| JFloat (literal : string)
| JString (s : string)
| JObject (entries : list (string * Json)).

(** A [dict] with string keys, in the order of insertion. *)
Definition Dict : Type := list (string * Json).

Definition keys (d : Dict) : list string := map fst d.

(** [d.get(key)] *)
Fixpoint lookup (key : string) (d : Dict) : option Json :=
  match d with
  | [] => None
  | (k, v) :: rest => if String.eqb key k then Some v else lookup key rest
  end.

(** [key in d] *)
Definition has_key (key : string) (d : Dict) : bool :=
  match lookup key d with
  | Some _ => true
  | None => false
  end.

(** [d[key] = value]: in place when the key is there, at the end when not. *)
Fixpoint set_item (key : string) (value : Json) (d : Dict) : Dict :=
  match d with
  | [] => [(key, value)]
  | (k, v) :: rest =>
      if String.eqb key k then (k, value) :: rest
      else (k, v) :: set_item key value rest
  end.

(** [value is not None] *)
Definition is_not_none (value : Json) : bool :=
  match value with
  | JNull => false
  | _ => true
  end.

(** The loop of [load_config_with_defaults] over [user_config.items()]. *)
Definition apply_user_config (default_config user_config : Dict) : Dict :=
  fold_left
    (fun config item =>
       if has_key (fst item) config && is_not_none (snd item)
       then set_item (fst item) (snd item) config
       else config)
    user_config default_config.

(** [default_config] of [load_config_with_defaults]. *)
Definition default_config : Dict :=
  [("use_api", JBool false);
   ("api_options",
    JObject [("model", JString "whisper-1"); ("language", JNull);
             ("temperature", JFloat "0.0"); ("initial_prompt", JNull)]);
   ("local_model_options",
    JObject [("model", JString "base"); ("device", JString "auto");
             ("compute_type", JString "auto"); ("language", JNull);
             ("temperature", JFloat "0.0"); ("initial_prompt", JNull);
             ("condition_on_previous_text", JBool true);
             ("vad_filter", JBool false)]);
   ("activation_key", JString "ctrl+shift+space");
   ("recording_mode", JString "voice_activity_detection");
   ("sound_device", JNull);
   ("sample_rate", JInt 16000);
   ("silence_duration", JInt 900);
   ("writing_key_press_delay", JFloat "0.008");
   ("noise_on_completion", JBool false);
   ("remove_trailing_period", JBool true);
   ("add_trailing_space", JBool false);
   ("remove_capitalization", JBool false);
   ("print_to_terminal", JBool true);
   ("hide_status_window", JBool false)]%string.

(** [load_config_with_defaults].  [config_file] is [None] when
    [src/config.json] is no file, and otherwise what [json.load] gives: a
    dictionary, or an exception. *)
Definition load_config_with_defaults (config_file : option (answer Dict))
    : answer Dict :=
  match config_file with
  | None => Ok default_config
  | Some (Fails e) => Fails e
  | Some (Ok user_config) => Ok (apply_user_config default_config user_config)
  end.

(* ================================================================== *)
(** * Facts about Python strings                                       *)
(* ================================================================== *)

Section StringFacts.

Import Pipeline.

Lemma skip_leading_is_trim_left (s : str) :
  skipn (count_leading s) s = trim_left s.
Proof.
  induction s as [|c r IH]; simpl; [reflexivity|].
  destruct (isspace c); simpl; [exact IH | reflexivity].
Qed.

Lemma trim_left_snoc (a : str) (c : ascii) :
  trim_left (a ++ [c]) =
  match trim_left a with
  | [] => if isspace c then [] else [c]
  | x => x ++ [c]
  end.
Proof.
  induction a as [|b a IH]; simpl.
  - destruct (isspace c); reflexivity.
  - destruct (isspace b); [exact IH | reflexivity].
Qed.

Lemma trim_right_rev (r : str) : trim_right r = rev (trim_left (rev r)).
Proof.
  induction r as [|c r IH]; simpl; [reflexivity|].
  rewrite trim_left_snoc, IH.
  destruct (trim_left (rev r)) as [|x xs] eqn:E; simpl.
  - destruct (isspace c); reflexivity.
  - rewrite rev_app_distr. simpl.
    destruct (rev xs ++ [x]) eqn:E2; [|reflexivity].
    destruct (rev xs); discriminate.
Qed.

Lemma drop_trailing_is_trim_right (r : str) :
  firstn (length r - count_leading (rev r)) r = trim_right r.
Proof.
  rewrite trim_right_rev, <- skip_leading_is_trim_left.
  rewrite skipn_rev, rev_involutive. reflexivity.
Qed.

(** CPython's index arithmetic computes the two-sided trim. *)
Lemma strip_is_trim (s : str) : strip s = trim s.
Proof.
  unfold strip, trim.
  rewrite skip_leading_is_trim_left. apply drop_trailing_is_trim_right.
Qed.

Lemma endswith_dot (s : str) : endswith s [dot] = ends_with_period s.
Proof.
  unfold endswith, ends_with_period.
  destruct s as [|a s' _] using rev_ind; [reflexivity|].
  rewrite rev_app_distr, length_app.
  replace (length [dot] <=? length s' + length [a]) with true
    by (symmetry; apply Nat.leb_le; simpl; lia).
  replace (length s' + length [a] - length [dot]) with (length s')
    by (simpl; lia).
  rewrite skipn_app, skipn_all, Nat.sub_diag. simpl.
  rewrite andb_true_r. reflexivity.
Qed.

Lemma slice_to_minus_one (T : Type) (s : list T) :
  slice_to (-1) s = removelast s.
Proof.
  unfold slice_to, clamp_index.
  rewrite removelast_firstn_len. f_equal.
  change (-1 <? 0)%Z with true. cbv iota. lia.
Qed.

Lemma isspace_lower (c : ascii) : isspace (lower_char c) = isspace c.
Proof. destruct c as [[] [] [] [] [] [] [] []]; reflexivity. Qed.

Lemma lower_char_idem (c : ascii) : lower_char (lower_char c) = lower_char c.
Proof. destruct c as [[] [] [] [] [] [] [] []]; reflexivity. Qed.

Lemma lower_char_dot (c : ascii) :
  Ascii.eqb (lower_char c) dot = Ascii.eqb c dot.
Proof. destruct c as [[] [] [] [] [] [] [] []]; reflexivity. Qed.

End StringFacts.

(* ================================================================== *)
(** * Post-processing: the pipeline and its repetition                 *)
(* ================================================================== *)

Lemma post_process_steps (config : Configuration) (text : str) :
  post_process_transcription config text =
  Pipeline.step4 config
    (Pipeline.step3 config (Pipeline.step2 config (Pipeline.step1 text))).
Proof.
  unfold post_process_transcription, Pipeline.step4,
    Pipeline.step3, Pipeline.step2, Pipeline.step1, Pipeline.drop_final_char,
    lower.
  rewrite strip_is_trim, endswith_dot, slice_to_minus_one.
  destruct (remove_trailing_period config),
    (Pipeline.ends_with_period (Pipeline.trim text)); reflexivity.
Qed.

Section Repetition.

Import Pipeline.

Lemma trim_left_lower (s : str) :
  trim_left (map lower_char s) = map lower_char (trim_left s).
Proof.
  induction s as [|c r IH]; simpl; [reflexivity|].
  rewrite isspace_lower. destruct (isspace c); [exact IH | reflexivity].
Qed.

Lemma trim_lower (s : str) : trim (lower s) = lower (trim s).
Proof.
  unfold trim, lower.
  rewrite trim_left_lower, !trim_right_rev, <- map_rev, trim_left_lower,
    map_rev.
  reflexivity.
Qed.

Lemma trim_right_snoc_space (s : str) (c : ascii) :
  isspace c = true -> trim_right (s ++ [c]) = trim_right s.
Proof.
  intros H. rewrite !trim_right_rev, rev_app_distr. simpl.
  rewrite H. reflexivity.
Qed.

Lemma trim_snoc_space (s : str) : trim (s ++ [space]) = trim s.
Proof.
  unfold trim. rewrite trim_left_snoc.
  destruct (trim_left s) as [|x xs] eqn:E; [reflexivity|].
  apply trim_right_snoc_space. reflexivity.
Qed.

Lemma ends_with_period_lower (s : str) :
  ends_with_period (lower s) = ends_with_period s.
Proof.
  unfold ends_with_period, lower. rewrite <- map_rev.
  destruct (rev s); simpl; [reflexivity | apply lower_char_dot].
Qed.

Lemma ends_with_period_space (s : str) :
  ends_with_period (s ++ [space]) = false.
Proof. unfold ends_with_period. rewrite rev_app_distr. reflexivity. Qed.

Lemma lower_idem (s : str) : lower (lower s) = lower s.
Proof.
  unfold lower. rewrite map_map. apply map_ext. exact lower_char_idem.
Qed.

Lemma trimmed_core_is_step2 (config : Configuration) (text : str) :
  trimmed_core config text = step2 config (step1 text).
Proof.
  unfold trimmed_core, step2, step1, drop_final_char.
  rewrite strip_is_trim, endswith_dot, slice_to_minus_one.
  destruct (remove_trailing_period config),
    (ends_with_period (trim text)); reflexivity.
Qed.

Lemma post_process_of_core (config : Configuration) (text : str) :
  post_process_transcription config text =
  step4 config (step3 config (trimmed_core config text)).
Proof. rewrite post_process_steps, trimmed_core_is_step2. reflexivity. Qed.

(** Trimming the output of one pass gives back the core, lower-cased when
    the pass lower-cases. *)
Lemma trim_of_output (config : Configuration) (s : str) :
  trim s = s ->
  trim (step4 config (step3 config s)) = step4 config s.
Proof.
  intros H. unfold step4, step3.
  destruct (remove_capitalization config), (add_trailing_space config);
    fold (lower s); fold (lower (s ++ [space]));
    rewrite ?trim_lower, ?trim_snoc_space, H; reflexivity.
Qed.

End Repetition.

Section Idempotence.

Import Pipeline.

Lemma step2_of_lowered (config : Configuration) (s : str) :
  (remove_trailing_period config = true -> ends_with_period s = false) ->
  step2 config (step4 config s) = step4 config s.
Proof.
  intros H. unfold step2, step4.
  destruct (remove_trailing_period config); [|reflexivity].
  specialize (H eq_refl).
  destruct (remove_capitalization config).
  - fold (lower s). rewrite ends_with_period_lower, H. reflexivity.
  - rewrite H. reflexivity.
Qed.

Lemma step43_of_lowered (config : Configuration) (s : str) :
  step4 config (step3 config (step4 config s)) =
  step4 config (step3 config s).
Proof.
  unfold step4, step3.
  destruct (remove_capitalization config), (add_trailing_space config);
    try reflexivity.
  - rewrite !map_app, map_map. f_equal. apply map_ext, lower_char_idem.
  - rewrite map_map. apply map_ext, lower_char_idem.
Qed.

(** Lengths: trimming and dropping the period never lengthen a text, and
    leave its length alone only when they leave the text alone. *)
Lemma trim_left_length (s : str) : length (trim_left s) <= length s.
Proof.
  induction s as [|c r IH]; simpl; [lia|].
  destruct (isspace c); simpl; lia.
Qed.

Lemma trim_left_fixed (s : str) :
  length (trim_left s) = length s -> trim_left s = s.
Proof.
  destruct s as [|c r]; simpl; [reflexivity|].
  destruct (isspace c); [|reflexivity].
  pose proof (trim_left_length r). lia.
Qed.

Lemma trim_right_length (s : str) : length (trim_right s) <= length s.
Proof.
  rewrite trim_right_rev, length_rev.
  pose proof (trim_left_length (rev s)) as H. rewrite length_rev in H.
  exact H.
Qed.

Lemma trim_right_fixed (s : str) :
  length (trim_right s) = length s -> trim_right s = s.
Proof.
  rewrite trim_right_rev, length_rev. intros H.
  rewrite trim_left_fixed by (rewrite length_rev; exact H).
  apply rev_involutive.
Qed.

Lemma trim_fixed (s : str) : length (trim s) = length s -> trim s = s.
Proof.
  unfold trim. intros H.
  pose proof (trim_right_length (trim_left s)).
  pose proof (trim_left_length s).
  assert (Hl : trim_left s = s) by (apply trim_left_fixed; lia).
  rewrite Hl in *. apply trim_right_fixed. exact H.
Qed.

Lemma trim_of_any_output (config : Configuration) (s : str) :
  trim (step4 config (step3 config s)) = step4 config (trim s).
Proof.
  unfold step4, step3.
  destruct (remove_capitalization config), (add_trailing_space config);
    fold (lower s); fold (lower (s ++ [space])); fold (lower (trim s));
    rewrite ?trim_lower, ?trim_snoc_space; reflexivity.
Qed.

Lemma step4_length (config : Configuration) (s : str) :
  length (step4 config s) = length s.
Proof.
  unfold step4. destruct (remove_capitalization config);
    [apply length_map | reflexivity].
Qed.

Lemma step2_length (config : Configuration) (s : str) :
  length (step2 config s) <= length s /\
  (length (step2 config s) = length s ->
   remove_trailing_period config = true -> ends_with_period s = false).
Proof.
  unfold step2, drop_final_char.
  destruct (remove_trailing_period config); [|split; [lia|discriminate]].
  destruct (ends_with_period s) eqn:E; [|split; [lia|reflexivity]].
  rewrite removelast_firstn_len, length_firstn.
  destruct s as [|c r]; [discriminate E|].
  simpl length. split; lia.
Qed.

End Idempotence.

(** C4.  For every text and every configuration, what
    [post_process_transcription] computes is the fixed pipeline of the
    specification: trim, then drop the final character if it is a period and
    [remove_trailing_period] is set, then append one space if
    [add_trailing_space] is set, then lower-case everything if
    [remove_capitalization] is set.  Both sides are functions of the text and
    the configuration alone. *)
Theorem post_process_is_pipeline (config : Configuration) (text : str) :
  post_process_transcription config text = Pipeline.run config text.
Proof.
  unfold post_process_transcription, Pipeline.run, Pipeline.step4,
    Pipeline.step3, Pipeline.step2, Pipeline.step1, Pipeline.drop_final_char,
    lower.
  rewrite strip_is_trim, endswith_dot, slice_to_minus_one.
  destruct (remove_trailing_period config) eqn:Hperiod; cbn [andb].
  - destruct (Pipeline.ends_with_period (Pipeline.trim text)); reflexivity.
  - reflexivity.
Qed.

(** C5, as stated, fails: with the default configuration (only
    [remove_trailing_period] set) the text "Hello.." becomes "Hello." and a
    second pass takes the next period as well. *)
Lemma post_process_twice_differs :
  post_process_transcription default_configuration (lit "Hello..")
    = lit "Hello." /\
  post_process_transcription default_configuration
    (post_process_transcription default_configuration (lit "Hello.."))
    = lit "Hello" /\
  ~ (forall (config : Configuration) (text : str),
       post_process_transcription config
         (post_process_transcription config text) =
       post_process_transcription config text).
Proof.
  split; [reflexivity|]. split; [reflexivity|].
  intros H. specialize (H default_configuration (lit "Hello..")).
  vm_compute in H. discriminate H.
Qed.

(** C5, amended.  A second pass changes nothing when the text, once trimmed
    and relieved of its final period (if [remove_trailing_period] is set),
    ends neither in white space nor, with [remove_trailing_period] set, in a
    further period. *)
Theorem post_process_idempotent_when_settled
    (config : Configuration) (text : str) :
  (remove_trailing_period config = true ->
   endswith (trimmed_core config text) [dot] = false) ->
  strip (trimmed_core config text) = trimmed_core config text ->
  post_process_transcription config
    (post_process_transcription config text) =
  post_process_transcription config text.
Proof.
  intros Hdot Htrim.
  rewrite endswith_dot in Hdot. rewrite strip_is_trim in Htrim.
  rewrite (post_process_of_core config text).
  rewrite post_process_of_core, trimmed_core_is_step2.
  unfold Pipeline.step1. rewrite (@trim_of_output config _ Htrim).
  rewrite (@step2_of_lowered config _ Hdot).
  apply step43_of_lowered.
Qed.

Lemma post_process_idempotent_when_settled_witness :
  post_process_transcription default_configuration (lit "Hello.")
    = lit "Hello" /\
  post_process_transcription default_configuration
    (post_process_transcription default_configuration (lit "Hello.")) =
  post_process_transcription default_configuration (lit "Hello.").
Proof.
  split; [reflexivity|].
  apply (post_process_idempotent_when_settled
           default_configuration (lit "Hello.")).
  - intros _. reflexivity.
  - reflexivity.
Defined.

Section OnlyWhenSettled.

Import Pipeline.

(** The condition of the amended C5 is also necessary: a second pass that
    changes nothing means that the core had neither white space at its end
    nor a period left to drop. *)
Lemma post_process_idempotent_only_when_settled (config : Configuration) (text : str) :
  post_process_transcription config
    (post_process_transcription config text) =
  post_process_transcription config text ->
  (remove_trailing_period config = true ->
   endswith (trimmed_core config text) [dot] = false) /\
  strip (trimmed_core config text) = trimmed_core config text.
Proof.
  intros H. apply (f_equal (@length ascii)) in H.
  rewrite (post_process_of_core config text) in H.
  rewrite post_process_of_core, trimmed_core_is_step2 in H.
  unfold step1 in H. rewrite trim_of_any_output in H.
  set (s := trimmed_core config text) in *.
  rewrite !step4_length in H.
  assert (Hlen : length (step2 config (step4 config (trim s))) = length s).
  { unfold step3 in H.
    destruct (add_trailing_space config); [|exact H].
    rewrite !length_app in H. simpl in H. lia. }
  destruct (step2_length config (step4 config (trim s))) as [Hle Heq].
  pose proof (trim_right_length (trim_left s)) as H1.
  pose proof (trim_left_length s) as H2. fold (trim s) in H1.
  rewrite step4_length in Hle, Heq.
  assert (Htrim : trim s = s) by (apply trim_fixed; lia).
  split.
  - intros Hr. rewrite endswith_dot.
    rewrite Htrim in Heq, Hlen.
    specialize (Heq Hlen Hr).
    unfold step4 in Heq. destruct (remove_capitalization config).
    + fold (lower s) in Heq. rewrite ends_with_period_lower in Heq.
      exact Heq.
    + exact Heq.
  - rewrite strip_is_trim. exact Htrim.
Qed.

Lemma trim_left_idem (s : str) : trim_left (trim_left s) = trim_left s.
Proof.
  induction s as [|c r IH]; simpl; [reflexivity|].
  destruct (isspace c) eqn:E; [exact IH|]. simpl. rewrite E. reflexivity.
Qed.

Lemma trim_right_idem (s : str) : trim_right (trim_right s) = trim_right s.
Proof.
  rewrite !trim_right_rev, rev_involutive, trim_left_idem. reflexivity.
Qed.

Lemma trim_left_after_right (s : str) :
  trim_left s = s -> trim_left (trim_right s) = trim_right s.
Proof.
  destruct s as [|c r]; [reflexivity|]. simpl.
  destruct (isspace c) eqn:E.
  - intros H. pose proof (trim_left_length r) as Hl.
    apply (f_equal (@length ascii)) in H. simpl in H. lia.
  - intros _. destruct (trim_right r); simpl; rewrite E; reflexivity.
Qed.

Lemma trim_idem (s : str) : trim (trim s) = trim s.
Proof.
  unfold trim.
  rewrite (trim_left_after_right (trim_left_idem s)).
  apply trim_right_idem.
Qed.

(** In particular, with [remove_trailing_period] unset every text is
    settled after one pass. *)
Lemma post_process_idempotent_without_period_removal
    (config : Configuration) (text : str) :
  remove_trailing_period config = false ->
  post_process_transcription config
    (post_process_transcription config text) =
  post_process_transcription config text.
Proof.
  intros Hr.
  assert (Hcore : trimmed_core config text = trim text).
  { rewrite trimmed_core_is_step2. unfold step2, step1. rewrite Hr.
    reflexivity. }
  rewrite (post_process_of_core config text).
  rewrite post_process_of_core, trimmed_core_is_step2.
  unfold step1. rewrite trim_of_any_output, Hcore, trim_idem.
  unfold step2. rewrite Hr. apply step43_of_lowered.
Qed.

End OnlyWhenSettled.

(* ================================================================== *)
(** * The capture loop                                                 *)
(* ================================================================== *)

Ltac step_monad :=
  unfold bind, ret, raise, spin, ask, attempt, put, cancel_flag, save_file,
    note_call, model_loaded, set_model_loaded in *.

Lemma same_effects_refl (w : World) : same_effects w w.
Proof. unfold same_effects. auto. Qed.

Lemma same_effects_trans (w1 w2 w3 : World) :
  same_effects w1 w2 -> same_effects w2 w3 -> same_effects w1 w3.
Proof.
  unfold same_effects. intros (A & B & C & D & E) (A' & B' & C' & D' & E').
  repeat split; try congruence. lia.
Qed.

Lemma same_effects_after_reads (k : nat) (w : World) :
  same_effects w (after_reads k w).
Proof. unfold same_effects, after_reads. simpl. repeat split. lia. Qed.

(** The flag never goes back. *)
Lemma flag_at_mono (env : Env) (a b : nat) :
  a <= b -> flag_at env a = true -> flag_at env b = true.
Proof.
  unfold flag_at. destruct (cancel_set_at env) as [n|]; [|discriminate].
  intros Hab H. apply Nat.leb_le in H. apply Nat.leb_le. lia.
Qed.

Lemma flag_at_never (env : Env) (r : nat) :
  cancel_set_at env = None -> flag_at env r = false.
Proof. unfold flag_at. intros ->. reflexivity. Qed.

(** The mode logic touches nothing in the world and always ends. *)
Lemma mode_logic_world (config : Configuration) (t : Tick) (frame : list Z)
    (st : Locals) (w : World) :
  snd (mode_logic config t frame st w) = w /\
  fst (mode_logic config t frame st w) <> Spin.
Proof.
  unfold mode_logic, press_to_toggle_branch, hold_to_record_branch,
    voice_activity_branch.
  step_monad.
  destruct (mode_is (recording_mode config) PRESS_TO_TOGGLE);
    destruct (mode_is (recording_mode config) HOLD_TO_RECORD);
    destruct (mode_is (recording_mode config) VOICE_ACTIVITY_DETECTION);
    destruct (0 <? len (recording st))%Z;
    destruct (pressed t) as [[]|]; destruct (speech t) as [[]|]; simpl;
    try (split; [reflexivity | discriminate]);
    repeat match goal with
           | |- context [if ?b then _ else _] => destruct b; simpl
           end; split; (reflexivity || discriminate).
Qed.

(** One turn, unfolded. *)
Lemma capture_loop_turn (config : Configuration) (env : Env) (t : Tick)
    (ts : list Tick) (st : Locals) (w : World) :
  capture_loop config env (t :: ts) st w =
  if flag_at env (flag_reads w)
  then (Ret (Cancelled, st), after_reads 1 w)
  else
    let st1 := receive (arrived t) st in
    if (len (buffer st1) <? frame_samples config)%Z
    then capture_loop config env ts st1 (after_reads 1 w)
    else
      let frame := slice_to (frame_samples config) (buffer st1) in
      let st2 :=
        set_buffer (slice_from (frame_samples config) (buffer st1)) st1 in
      if flag_at env (S (flag_reads w))
      then capture_loop config env ts st2 (after_reads 2 w)
      else
        match mode_logic config t frame st2 (after_reads 2 w) with
        | (Ret (Break st'), w') => (Ret (Stopped, st'), w')
        | (Ret (Next st'), w') => capture_loop config env ts st' w'
        | (Raise e, w') => (Raise e, w')
        | (Spin, w') => (Spin, w')
        end.
Proof.
  cbn [capture_loop]. unfold bind, cancel_flag, ret, after_reads.
  cbn [flag_reads status_queue files backend_calls local_model Nat.add].
  cbv zeta.
  destruct (flag_at env (flag_reads w)); [reflexivity|].
  destruct (len (buffer (receive (arrived t) st)) <? frame_samples config)%Z;
    [reflexivity|].
  cbn [flag_reads status_queue files backend_calls local_model Nat.add].
  destruct (flag_at env (S (flag_reads w))); [reflexivity|].
  match goal with
  | |- context [mode_logic ?c ?t ?f ?s ?w] =>
      destruct (mode_logic c t f s w) as [[[]| |] ?]
  end; reflexivity.
Qed.

(** Running on [pre ++ post] is running on [pre] and, if the loop still
    turns, going on with [post]. *)
Lemma capture_loop_app (config : Configuration) (env : Env)
    (pre post : list Tick) :
  forall (st : Locals) (w : World),
    capture_loop config env (pre ++ post) st w =
    match capture_loop config env pre st w with
    | (Ret (Turning, st1), w1) => capture_loop config env post st1 w1
    | r => r
    end.
Proof.
  induction pre as [|t pre IH]; intros st w; [reflexivity|].
  rewrite <- app_comm_cons, !capture_loop_turn.
  destruct (flag_at env (flag_reads w)); [reflexivity|].
  cbv zeta.
  destruct (len (buffer (receive (arrived t) st)) <? frame_samples config)%Z;
    [apply IH|].
  destruct (flag_at env (S (flag_reads w))); [apply IH|].
  match goal with
  | |- context [mode_logic ?c ?t ?f ?s ?w] =>
      destruct (mode_logic c t f s w) as [[[]| |] ?]
  end; try reflexivity. apply IH.
Qed.

(** The loop never spins on its own account and touches the world only by
    reading the flag. *)
Lemma capture_loop_world (config : Configuration) (env : Env)
    (ts : list Tick) :
  forall (st : Locals) (w : World),
    same_effects w (snd (capture_loop config env ts st w)) /\
    fst (capture_loop config env ts st w) <> Spin.
Proof.
  induction ts as [|t ts IH]; intros st w.
  - simpl. split; [apply same_effects_refl | discriminate].
  - rewrite capture_loop_turn.
    destruct (flag_at env (flag_reads w)).
    { split; [apply same_effects_after_reads | discriminate]. }
    cbv zeta.
    destruct (len (buffer (receive (arrived t) st)) <? frame_samples config)%Z.
    { destruct (IH (receive (arrived t) st) (after_reads 1 w)) as [A B].
      split; [|exact B].
      eapply same_effects_trans; [apply same_effects_after_reads | exact A]. }
    destruct (flag_at env (S (flag_reads w))).
    { match goal with
      | |- context [capture_loop config env ts ?s ?w'] =>
          destruct (IH s w') as [A B]
      end.
      split; [|exact B].
      eapply same_effects_trans; [apply same_effects_after_reads | exact A]. }
    match goal with
    | |- context [mode_logic ?c ?t ?f ?s ?w'] =>
        destruct (mode_logic_world c t f s w') as [Hw Hs];
        destruct (mode_logic c t f s w') as [[[st'|st']|e|] w2]
    end; simpl in Hw, Hs; subst w2.
    + split; [apply same_effects_after_reads | discriminate].
    + destruct (IH st' (after_reads 2 w)) as [A B].
      split; [|exact B].
      eapply same_effects_trans; [apply same_effects_after_reads | exact A].
    + split; [apply same_effects_after_reads | discriminate].
    + contradiction.
Qed.

(* ================================================================== *)
(** * [record], case by case                                           *)
(* ================================================================== *)

Lemma record_body_cases (config : Configuration) (env : Env) (w : World) :
  record_body config env w =
  match open_stream env with
  | Some e => (Raise e, w)
  | None =>
      match capture_loop config env (ticks env) initial_locals w with
      | (Ret (Turning, _), w1) => (Spin, w1)
      | (Ret (_, st), w1) => after_loop config env st w1
      | (Raise e, w1) =>
          (Raise match close_stream env with Some e' => e' | None => e end,
           w1)
      | (Spin, w1) => (Spin, w1)
      end
  end.
Proof.
  unfold record_body, with_stream, after_loop.
  unfold bind at 1. unfold bind at 1. unfold attempt.
  destruct (open_stream env) as [e|]; [reflexivity|].
  unfold ret at 1. unfold bind at 1.
  destruct (capture_loop config env (ticks env) initial_locals w)
    as [[[x st]|e|] w1]; cbn [fst snd].
  - destruct x; unfold ret at 1, spin; try reflexivity;
      (destruct (close_stream env); [reflexivity|]);
      step_monad; cbn [flag_reads];
      (destruct (flag_at env (flag_reads w1)); [reflexivity|]);
      (destruct (temp_file env); [|reflexivity]);
      (destruct (write_wave env); reflexivity).
  - destruct (close_stream env); reflexivity.
  - reflexivity.
Qed.

Lemma record_cases (config : Configuration) (env : Env) (w : World) :
  record config env w =
  match record_body config env w with
  | (Raise _, w1) => (Ret [], queued error_event w1)
  | r => r
  end.
Proof.
  unfold record, try_except.
  destruct (record_body config env w) as [[| |] ?]; reflexivity.
Qed.

Lemma same_effects_queued (ev : StatusEvent) (w : World) :
  status_queue (queued ev w) = status_queue w ++ [ev] /\
  files (queued ev w) = files w /\
  backend_calls (queued ev w) = backend_calls w.
Proof. repeat split. Qed.

(** Whatever makes the body of [record] raise, it has so far queued
    nothing, written nothing and called no backend. *)
Lemma record_body_raise_effects (config : Configuration) (env : Env)
    (w w1 : World) (e : exn) :
  record_body config env w = (Raise e, w1) -> same_effects w w1.
Proof.
  rewrite record_body_cases.
  destruct (open_stream env) as [e0|].
  { intros H. inversion H. apply same_effects_refl. }
  destruct (capture_loop_world config env (ticks env) initial_locals w)
    as [Hw _].
  destruct (capture_loop config env (ticks env) initial_locals w)
    as [[[x st]|e1|] w2]; cbn [snd] in Hw.
  - assert (after_loop config env st w2 = (Raise e, w1) -> same_effects w w1)
      as Hafter.
    { unfold after_loop.
      destruct (close_stream env).
      { intros H. inversion H. subst. exact Hw. }
      destruct (flag_at env (flag_reads w2)); [discriminate|].
      destruct (temp_file env).
      - destruct (write_wave env); [|discriminate].
        intros H. inversion H.
        eapply same_effects_trans; [exact Hw|apply same_effects_after_reads].
      - intros H. inversion H.
        eapply same_effects_trans; [exact Hw|apply same_effects_after_reads]. }
    destruct x; [exact Hafter | exact Hafter | discriminate].
  - intros H. inversion H. subst. exact Hw.
  - discriminate.
Qed.

(** C9.  An error raised while capturing (on opening the stream, in a turn
    of the loop, on closing the stream or on writing the file) never leaves
    [record]: the call returns the empty string, having queued one [error]
    event, written no audio file and called no backend, so the service can
    be activated again. *)
Theorem record_catches_capture_errors (config : Configuration) (env : Env)
    (w : World) :
  (forall e, fst (record config env w) <> Raise e) /\
  (forall e w1,
      record_body config env w = (Raise e, w1) ->
      record config env w = (Ret [], queued error_event w1) /\
      status_queue (queued error_event w1) = status_queue w ++ [error_event] /\
      files (queued error_event w1) = files w /\
      backend_calls (queued error_event w1) = backend_calls w).
Proof.
  split.
  - intros e. rewrite record_cases.
    destruct (record_body config env w) as [[| |] ?]; discriminate.
  - intros e w1 H.
    destruct (record_body_raise_effects _ _ _ H) as (Q & F & B & _).
    rewrite record_cases, H.
    destruct (same_effects_queued error_event w1) as (Q' & F' & B').
    repeat split; congruence.
Qed.

Lemma record_catches_capture_errors_witness :
  record_body default_configuration (no_microphone (studio [])) fresh_world
    = (Raise "PortAudioError"%string, fresh_world) /\
  record default_configuration (no_microphone (studio [])) fresh_world
    = (Ret [], queued error_event fresh_world).
Proof.
  split; [reflexivity|].
  apply (proj2 (record_catches_capture_errors default_configuration
                  (no_microphone (studio [])) fresh_world)
           "PortAudioError"%string fresh_world).
  reflexivity.
Defined.

(** The sources of error one by one: the stream that does not open, the
    turn of the loop that raises, the file that cannot be written. *)
Lemma open_failure_is_caught (config : Configuration) (env : Env)
    (e : exn) (w : World) :
  open_stream env = Some e ->
  record config env w = (Ret [], queued error_event w).
Proof.
  intros H. rewrite record_cases, record_body_cases, H. reflexivity.
Qed.

Lemma loop_failure_is_caught (config : Configuration) (env : Env)
    (e : exn) (w w1 : World) :
  open_stream env = None ->
  capture_loop config env (ticks env) initial_locals w = (Raise e, w1) ->
  record config env w = (Ret [], queued error_event w1).
Proof.
  intros Ho H. rewrite record_cases, record_body_cases, Ho, H. reflexivity.
Qed.

Lemma write_failure_is_caught (config : Configuration) (env : Env)
    (e : exn) (stem : str) (st : Locals) (w w1 : World) :
  open_stream env = None ->
  close_stream env = None ->
  capture_loop config env (ticks env) initial_locals w
    = (Ret (Stopped, st), w1) ->
  flag_at env (flag_reads w1) = false ->
  temp_file env = Ok stem ->
  write_wave env = Some e ->
  record config env w = (Ret [], queued error_event (after_reads 1 w1)).
Proof.
  intros Ho Hc Hl Hf Ht Hw.
  rewrite record_cases, record_body_cases, Ho, Hl.
  unfold after_loop. rewrite Hc, Hf, Ht, Hw. reflexivity.
Qed.

(** A speech detector that fails in the third turn: same ending. *)
Example detector_failure_is_caught :
  record (named VOICE_ACTIVITY_DETECTION)
    (studio [frame_tick false true; frame_tick false false;
             {| arrived := frame16k; pressed := Ok false;
                speech := Fails "Error"%string |}])
    fresh_world
  = (Ret [], queued error_event (after_reads 6 fresh_world)).
Proof. vm_compute. reflexivity. Qed.

(* ================================================================== *)
(** * [transcribe] and [record_and_transcribe]                         *)
(* ================================================================== *)

(** C10.  Given the empty string as the path of the audio file (what
    [record] returns when cancelled or when an error was caught),
    [transcribe] returns the empty string at once and leaves the world as it
    found it: no [transcribing] event is queued and no backend is called. *)
Theorem transcribe_without_audio_file (config : Configuration) (env : Env)
    (w : World) :
  transcribe config env [] w = (Ret [], w).
Proof. reflexivity. Qed.

Lemma transcribe_api_failure (config : Configuration) (env : Env)
    (path : str) (e : exn) (w : World) :
  truthy path = true ->
  use_api config = true ->
  api_transcribe env path = Fails e ->
  transcribe config env path w =
  (Raise e, called RemoteAPI path (queued transcribing_event w)).
Proof.
  intros Hp Hu Hf. unfold transcribe, transcribe_api.
  rewrite Hp, Hu. step_monad. cbn. rewrite Hf. reflexivity.
Qed.

Lemma transcribe_local_failure (config : Configuration) (env : Env)
    (path : str) (e : exn) (w : World) :
  truthy path = true ->
  use_api config = false ->
  local_model w = true ->
  local_transcribe env path = Fails e ->
  transcribe config env path w =
  (Raise e, called LocalModel path (queued transcribing_event w)).
Proof.
  intros Hp Hu Hm Hf. unfold transcribe, transcribe_local.
  rewrite Hp, Hu. step_monad. cbn. rewrite Hm. cbn. rewrite Hf.
  destruct w. cbn in *. subst. reflexivity.
Qed.

(** [record_and_transcribe] hands on what [transcribe] raises. *)
Lemma orchestration_hands_on_errors (config : Configuration) (env : Env)
    (path : str) (e : exn) (w w1 w2 : World) :
  record config env w = (Ret path, w1) ->
  flag_at env (flag_reads w1) = false ->
  transcribe config env path (after_reads 1 w1) = (Raise e, w2) ->
  record_and_transcribe config env w = (Raise e, w2).
Proof.
  intros Hr Hf Ht. unfold record_and_transcribe.
  unfold bind at 1. rewrite Hr.
  unfold bind at 1. unfold cancel_flag. rewrite Hf.
  exact Ht.
Qed.

(** C1 fails on the code: nothing in [transcribe] or in
    [record_and_transcribe] catches what a backend raises.  Here the key is
    held for one frame and released, the recording is written, the local
    backend raises [RuntimeError], and the call ends by raising it; the
    queue holds [transcribing] and no [error] event. *)
Theorem backend_error_escapes :
  let r := record_and_transcribe (named HOLD_TO_RECORD)
             (backends_down (studio [frame_tick true false;
                                     frame_tick false false]))
             fresh_world in
  fst r = Raise "RuntimeError"%string /\
  status_queue (snd r) =
    [("recording"%string, "Recording..."%string); transcribing_event] /\
  backend_calls (snd r) = [(LocalModel, lit "/tmp/tmpk3v9.wav")].
Proof. vm_compute. repeat split. Qed.

(* ================================================================== *)
(** * Cancellation                                                     *)
(* ================================================================== *)

(** When the loop is left through its [while] test, the flag is set. *)
Lemma cancelled_means_flag (config : Configuration) (env : Env)
    (ts : list Tick) :
  forall (st st' : Locals) (w w' : World),
    capture_loop config env ts st w = (Ret (Cancelled, st'), w') ->
    flag_at env (flag_reads w') = true.
Proof.
  induction ts as [|t ts IH]; intros st st' w w'; [discriminate|].
  rewrite capture_loop_turn.
  destruct (flag_at env (flag_reads w)) eqn:F.
  { intros H. inversion H. subst. simpl.
    apply (flag_at_mono env (a := flag_reads w)); [lia | exact F]. }
  cbv zeta.
  destruct (len (buffer (receive (arrived t) st)) <? frame_samples config)%Z;
    [apply IH|].
  destruct (flag_at env (S (flag_reads w))); [apply IH|].
  match goal with
  | |- context [mode_logic ?c ?t ?f ?s ?w0] =>
      destruct (mode_logic c t f s w0) as [[[]| |] ?]
  end; try discriminate. apply IH.
Qed.

(** Once the flag is set, before the [while] test of a turn or between that
    test and the inner test, the loop is left by the [while] test of this
    turn or of the next; no frame is appended in between. *)
Lemma cancel_exits_loop (config : Configuration) (env : Env) (n : nat)
    (t1 t2 : Tick) (rest : list Tick) (st : Locals) (w : World) :
  cancel_set_at env = Some n ->
  flag_reads w <= n <= S (flag_reads w) ->
  exists st' w',
    capture_loop config env (t1 :: t2 :: rest) st w
      = (Ret (Cancelled, st'), w') /\
    recording st' = recording st /\
    same_effects w w' /\
    n < flag_reads w' <= n + 2.
Proof.
  intros Hn Hr.
  assert (Hflag : forall r, flag_at env r = (n <=? r)).
  { intros r. unfold flag_at. rewrite Hn. reflexivity. }
  rewrite capture_loop_turn, Hflag.
  destruct (n <=? flag_reads w) eqn:E.
  - apply Nat.leb_le in E.
    exists st, (after_reads 1 w).
    repeat split; try (simpl; lia).
  - apply Nat.leb_gt in E. assert (n = S (flag_reads w)) as -> by lia.
    cbv zeta.
    destruct (len (buffer (receive (arrived t1) st)) <? frame_samples config)%Z.
    + rewrite capture_loop_turn, Hflag. simpl flag_reads.
      rewrite Nat.leb_refl.
      eexists _, _. split; [reflexivity|].
      repeat split; simpl; lia.
    + rewrite Hflag, Nat.leb_refl.
      rewrite capture_loop_turn, Hflag. simpl flag_reads.
      replace (S (flag_reads w) <=? S (S (flag_reads w))) with true
        by (symmetry; apply Nat.leb_le; lia).
      eexists _, _. split; [reflexivity|].
      repeat split; simpl; lia.
Qed.

(** The flag being set when [record] tests it after the loop, however the
    loop was left: [cancel] is queued, nothing is written, no backend is
    called, the empty string is returned. *)
Lemma cancel_seen_by_record (config : Configuration) (env : Env)
    (x : LoopExit) (st : Locals) (w w1 : World) :
  open_stream env = None ->
  close_stream env = None ->
  capture_loop config env (ticks env) initial_locals w = (Ret (x, st), w1) ->
  x <> Turning ->
  flag_at env (flag_reads w1) = true ->
  record_and_transcribe config env w
    = (Ret [], after_reads 1 (queued cancel_event (after_reads 1 w1))).
Proof.
  intros Ho Hc Hl Hx Hf.
  unfold record_and_transcribe. unfold bind at 1.
  rewrite record_cases, record_body_cases, Ho, Hl.
  assert (Hafter : after_loop config env st w1
                   = (Ret [], queued cancel_event (after_reads 1 w1)))
    by (unfold after_loop; rewrite Hc, Hf; reflexivity).
  replace (match x with
           | Turning => (Spin, w1)
           | _ => after_loop config env st w1
           end) with (after_loop config env st w1)
    by (destruct x; try reflexivity; contradiction).
  rewrite Hafter.
  unfold bind at 1. unfold cancel_flag.
  replace (flag_at env (flag_reads (queued cancel_event (after_reads 1 w1))))
    with true; [reflexivity|].
  symmetry. apply (flag_at_mono env (a := flag_reads w1)); [simpl; lia|exact Hf].
Qed.

(** What [record_and_transcribe] does once the loop has been left through
    its [while] test. *)
Lemma cancelled_session (config : Configuration) (env : Env)
    (st : Locals) (w w1 : World) :
  open_stream env = None ->
  close_stream env = None ->
  capture_loop config env (ticks env) initial_locals w
    = (Ret (Cancelled, st), w1) ->
  record_and_transcribe config env w
    = (Ret [], after_reads 1 (queued cancel_event (after_reads 1 w1))).
Proof.
  intros Ho Hc Hl.
  eapply cancel_seen_by_record; try eassumption; [discriminate|].
  exact (cancelled_means_flag _ _ _ _ _ Hl).
Qed.

(** The flag being set only after that test and before the one in
    [record_and_transcribe]: the audio file is written, no [cancel] event is
    queued by the service, and the empty string is returned without calling a
    backend. *)
Lemma cancel_seen_by_orchestration (config : Configuration) (env : Env)
    (st : Locals) (stem : str) (w w1 : World) :
  open_stream env = None ->
  close_stream env = None ->
  temp_file env = Ok stem ->
  write_wave env = None ->
  capture_loop config env (ticks env) initial_locals w
    = (Ret (Stopped, st), w1) ->
  flag_at env (flag_reads w1) = false ->
  flag_at env (S (flag_reads w1)) = true ->
  record_and_transcribe config env w
    = (Ret [],
       after_reads 1
         (stored (artifact config stem (recording st)) (after_reads 1 w1))).
Proof.
  intros Ho Hc Ht Hw Hl Hf Hf'.
  unfold record_and_transcribe. unfold bind at 1.
  rewrite record_cases, record_body_cases, Ho, Hl.
  unfold after_loop. rewrite Hc, Hf, Ht, Hw.
  unfold bind at 1. unfold cancel_flag. cbn [stored save_file snd flag_reads
    after_reads Nat.add]. rewrite Hf'. reflexivity.
Qed.

(** The flag not being set at either test, the recording goes to
    [transcribe]; the flag is not read again. *)
Lemma uncancelled_session (config : Configuration) (env : Env)
    (st : Locals) (stem : str) (w w1 : World) :
  open_stream env = None ->
  close_stream env = None ->
  temp_file env = Ok stem ->
  write_wave env = None ->
  capture_loop config env (ticks env) initial_locals w
    = (Ret (Stopped, st), w1) ->
  flag_at env (S (flag_reads w1)) = false ->
  record_and_transcribe config env w
    = transcribe config env (stem ++ lit ".wav")
        (after_reads 1
           (stored (artifact config stem (recording st)) (after_reads 1 w1))).
Proof.
  intros Ho Hc Ht Hw Hl Hf'.
  assert (Hf : flag_at env (flag_reads w1) = false).
  { destruct (flag_at env (flag_reads w1)) eqn:E; [|reflexivity].
    rewrite (flag_at_mono env (a := flag_reads w1)) in Hf'; [discriminate| |].
    - lia.
    - exact E. }
  unfold record_and_transcribe. unfold bind at 1.
  rewrite record_cases, record_body_cases, Ho, Hl.
  unfold after_loop. rewrite Hc, Hf, Ht, Hw.
  unfold bind at 1. unfold cancel_flag. cbn [stored save_file snd flag_reads
    after_reads Nat.add]. rewrite Hf'. reflexivity.
Qed.

(** C2, as stated, fails.  One frame is recorded in hold-to-record mode and
    the key is released; [record] reads the flag five times, four times in
    the loop and once after it, and [record_and_transcribe] reads it a sixth
    time.  When [stop()] runs after the fifth reading, the empty string is
    returned, but no [cancel] event is queued and the audio file has been
    written.  When it runs after the sixth, during the transcription, the
    flag is set and never looked at: the local backend is called and its
    text is returned. *)
Lemma late_cancellation_goes_unreported :
  let config := named HOLD_TO_RECORD in
  let ts := [frame_tick true false; frame_tick false false] in
  let r5 := record_and_transcribe config (cancelled_after 5 (studio ts))
              fresh_world in
  let r6 := record_and_transcribe config (cancelled_after 6 (studio ts))
              fresh_world in
  (fst r5 = Ret [] /\
   flag_at (cancelled_after 5 (studio ts)) (flag_reads (snd r5)) = true /\
   status_queue (snd r5) = status_queue fresh_world /\
   files (snd r5) = [artifact config (lit "/tmp/tmpk3v9") frame16k]) /\
  (fst r6 = Ret (lit "test transcription") /\
   flag_at (cancelled_after 6 (studio ts)) (flag_reads (snd r6)) = true /\
   status_queue (snd r6) = status_queue fresh_world ++ [transcribing_event] /\
   backend_calls (snd r6) = [(LocalModel, lit "/tmp/tmpk3v9.wav")]).
Proof.
  cbv zeta. repeat split; vm_compute; reflexivity.
Qed.

(** C2, amended.  [stop()] runs after [n] readings of the flag; the stream
    opens and closes.  What the session does depends on the moment.

    While the capture loop turns (the flag is set before the next [while]
    test, or between that test and the one that guards the mode logic): the
    loop is left by a [while] test within the next two turns with the
    recording as it stood, one [cancel] event is queued, no file is written,
    no backend is called, the empty string is returned.

    After the loop has been left by [break]:
    - set by the time [record] tests the flag: the same ending;
    - set after that test and before the one of [record_and_transcribe]: the
      empty string is returned and no backend is called, but the audio file
      has been written and no [cancel] event is queued;
    - set later: the flag is not read again, and the session goes on to
      [transcribe] the file as one that was never cancelled. *)
Theorem cancellation_ends_session (config : Configuration) (env : Env)
    (n : nat) (w : World) :
  open_stream env = None ->
  close_stream env = None ->
  cancel_set_at env = Some n ->
  (forall (pre : list Tick) (t1 t2 : Tick) (rest : list Tick)
          (st1 : Locals) (w1 : World),
      ticks env = pre ++ t1 :: t2 :: rest ->
      capture_loop config env pre initial_locals w
        = (Ret (Turning, st1), w1) ->
      flag_reads w1 <= n <= S (flag_reads w1) ->
      exists st2 w2 w',
        capture_loop config env (pre ++ [t1; t2]) initial_locals w
          = (Ret (Cancelled, st2), w2) /\
        recording st2 = recording st1 /\
        flag_reads w2 <= n + 2 /\
        record_and_transcribe config env w = (Ret [], w') /\
        status_queue w' = status_queue w ++ [cancel_event] /\
        files w' = files w /\
        backend_calls w' = backend_calls w) /\
  (forall (st : Locals) (w1 : World),
      capture_loop config env (ticks env) initial_locals w
        = (Ret (Stopped, st), w1) ->
      (n <= flag_reads w1 ->
       exists w',
         record_and_transcribe config env w = (Ret [], w') /\
         status_queue w' = status_queue w ++ [cancel_event] /\
         files w' = files w /\
         backend_calls w' = backend_calls w) /\
      (forall stem : str,
          temp_file env = Ok stem ->
          write_wave env = None ->
          (n = S (flag_reads w1) ->
           exists w',
             record_and_transcribe config env w = (Ret [], w') /\
             status_queue w' = status_queue w /\
             files w' = files w ++ [artifact config stem (recording st)] /\
             backend_calls w' = backend_calls w) /\
          (S (flag_reads w1) < n ->
           exists w',
             record_and_transcribe config env w
               = transcribe config env (stem ++ lit ".wav") w' /\
             status_queue w' = status_queue w /\
             files w' = files w ++ [artifact config stem (recording st)] /\
             backend_calls w' = backend_calls w))).
Proof.
  intros Ho Hc Hn.
  assert (Hflag : forall r, flag_at env r = (n <=? r)).
  { intros r. unfold flag_at. rewrite Hn. reflexivity. }
  split.
  - intros pre t1 t2 rest st1 w1 Ht Hpre Hr.
    destruct (cancel_exits_loop config env t1 t2 [] st1 w1 Hn Hr)
      as (st2 & w2 & Hloop & Hrec & _ & Hreads).
    destruct (cancel_exits_loop config env t1 t2 rest st1 w1 Hn Hr)
      as (st3 & w3 & Hloop' & _ & _ & _).
    assert (Hfull : capture_loop config env (ticks env) initial_locals w
                    = (Ret (Cancelled, st3), w3)).
    { rewrite Ht, capture_loop_app, Hpre. exact Hloop'. }
    destruct (capture_loop_world config env (ticks env) initial_locals w)
      as [(Q & F & B & _ & _) _].
    rewrite Hfull in Q, F, B. cbn [snd] in Q, F, B.
    exists st2, w2, (after_reads 1 (queued cancel_event (after_reads 1 w3))).
    split; [rewrite capture_loop_app, Hpre; exact Hloop|].
    split; [exact Hrec|]. split; [lia|].
    split; [eapply cancelled_session; eassumption|].
    simpl. rewrite Q, F, B. repeat split.
  - intros st w1 Hl.
    destruct (capture_loop_world config env (ticks env) initial_locals w)
      as [(Q & F & B & _ & _) _].
    rewrite Hl in Q, F, B. cbn [snd] in Q, F, B.
    split.
    + intros Hle.
      exists (after_reads 1 (queued cancel_event (after_reads 1 w1))).
      split.
      * eapply cancel_seen_by_record; try eassumption; [discriminate|].
        rewrite Hflag. apply Nat.leb_le. exact Hle.
      * simpl. rewrite Q, F, B. repeat split.
    + intros stem Ht Hw. split.
      * intros ->.
        exists (after_reads 1
                  (stored (artifact config stem (recording st))
                     (after_reads 1 w1))).
        split.
        -- eapply cancel_seen_by_orchestration; try eassumption.
           ++ rewrite Hflag. apply Nat.leb_gt. lia.
           ++ rewrite Hflag. apply Nat.leb_le. lia.
        -- simpl. rewrite Q, F, B. repeat split.
      * intros Hlt.
        exists (after_reads 1
                  (stored (artifact config stem (recording st))
                     (after_reads 1 w1))).
        split.
        -- eapply uncancelled_session; try eassumption.
           rewrite Hflag. apply Nat.leb_gt. lia.
        -- simpl. rewrite Q, F, B. repeat split.
Qed.

Lemma cancellation_ends_session_witness :
  exists st2 w2 w',
    capture_loop (named PRESS_TO_TOGGLE)
      (cancelled_after 7 (studio (repeat (frame_tick false false) 6)))
      (repeat (frame_tick false false) 3 ++
       [frame_tick false false; frame_tick false false])
      initial_locals fresh_world
      = (Ret (Cancelled, st2), w2) /\
    recording st2 = frame16k ++ frame16k ++ frame16k /\
    flag_reads w2 <= 7 + 2 /\
    record_and_transcribe (named PRESS_TO_TOGGLE)
      (cancelled_after 7 (studio (repeat (frame_tick false false) 6)))
      fresh_world = (Ret [], w') /\
    status_queue w' = status_queue fresh_world ++ [cancel_event] /\
    files w' = files fresh_world /\
    backend_calls w' = backend_calls fresh_world.
Proof.
  apply (proj1
           (@cancellation_ends_session (named PRESS_TO_TOGGLE)
              (cancelled_after 7 (studio (repeat (frame_tick false false) 6)))
              7 fresh_world eq_refl eq_refl eq_refl)
           (repeat (frame_tick false false) 3)
           (frame_tick false false) (frame_tick false false)
           [frame_tick false false]
           {| buffer := [];
              recording := frame16k ++ frame16k ++ frame16k;
              num_silent_frames := 0 |}
           (after_reads 6 fresh_world)).
  - reflexivity.
  - vm_compute. reflexivity.
  - simpl. lia.
Defined.

(* ================================================================== *)
(** * The audio file                                                   *)
(* ================================================================== *)

Lemma after_loop_cases (config : Configuration) (env : Env) (st : Locals)
    (w1 : World) :
  let r := after_loop config env st w1 in
  (fst r = Ret [] /\ flag_at env (flag_reads w1) = true /\
   snd r = queued cancel_event (after_reads 1 w1))
  \/ (exists e, fst r = Raise e /\ same_effects w1 (snd r))
  \/ (exists stem,
        flag_at env (flag_reads w1) = false /\
        temp_file env = Ok stem /\
        fst r = Ret (wav_path (artifact config stem (recording st))) /\
        snd r = stored (artifact config stem (recording st))
                  (after_reads 1 w1)).
Proof.
  unfold after_loop. cbv zeta.
  destruct (close_stream env) as [e|].
  { right. left. exists e. split; [reflexivity|apply same_effects_refl]. }
  destruct (flag_at env (flag_reads w1)).
  { left. repeat split. }
  destruct (temp_file env) as [stem|e].
  - destruct (write_wave env) as [e|].
    + right. left. exists e.
      split; [reflexivity|apply same_effects_after_reads].
    + right. right. exists stem. repeat split.
  - right. left. exists e.
    split; [reflexivity|apply same_effects_after_reads].
Qed.

(** C6, as stated, fails: in hold-to-record mode with the key already
    released when the first frame arrives, the loop breaks with nothing
    recorded, and [record] still writes an audio file (it holds no frame)
    and returns its path. *)
Lemma empty_recording_yields_artifact :
  let config := named HOLD_TO_RECORD in
  let env := studio [frame_tick false false] in
  (exists st w1,
      capture_loop config env (ticks env) initial_locals fresh_world
        = (Ret (Stopped, st), w1) /\ recording st = []) /\
  fst (record config env fresh_world) = Ret (lit "/tmp/tmpk3v9.wav") /\
  files (snd (record config env fresh_world)) =
    [{| wav_path := lit "/tmp/tmpk3v9.wav";
        nchannels := 1; sampwidth := 2; framerate := 16000;
        frames := [] |}].
Proof.
  cbv zeta. split.
  - eexists _, _. split; [vm_compute; reflexivity | reflexivity].
  - split; vm_compute; reflexivity.
Qed.

(** C6, amended.  [record] ends in one of four ways.  Cancelled: it returns
    the empty string, queues [cancel], writes no file.  Errored: it returns
    the empty string, queues [error], writes no file.  Still capturing: nothing
    is written.  Finished: the loop was left by [break], the flag was not set
    at the test after the loop, and exactly one file is written, mono, two
    bytes per sample, at the configured sample rate, holding the bytes of
    whatever was recorded (possibly nothing); its non-empty path is
    returned. *)
Theorem artifact_only_after_uncancelled_stop (config : Configuration)
    (env : Env) (w : World) :
  let r := record config env w in
  (fst r = Ret [] /\ files (snd r) = files w /\
   status_queue (snd r) = status_queue w ++ [cancel_event])
  \/ (fst r = Ret [] /\ files (snd r) = files w /\
      status_queue (snd r) = status_queue w ++ [error_event])
  \/ (fst r = Spin /\ files (snd r) = files w /\
      status_queue (snd r) = status_queue w)
  \/ (exists st w1 a,
        capture_loop config env (ticks env) initial_locals w
          = (Ret (Stopped, st), w1) /\
        flag_at env (flag_reads w1) = false /\
        fst r = Ret (wav_path a) /\ wav_path a <> [] /\
        files (snd r) = files w ++ [a] /\
        nchannels a = 1%Z /\ sampwidth a = 2%Z /\
        framerate a = sample_rate config /\
        frames a = tobytes (recording st) /\
        status_queue (snd r) = status_queue w).
Proof.
  cbv zeta. rewrite record_cases.
  destruct (record_body config env w) as [[path|e|] w'] eqn:Hbody.
  - (* the body returned *)
    rewrite record_body_cases in Hbody.
    destruct (open_stream env); [discriminate|].
    destruct (capture_loop_world config env (ticks env) initial_locals w)
      as [(Q & F & _) _].
    destruct (capture_loop config env (ticks env) initial_locals w)
      as [[[x st]| |] w1] eqn:Hloop; try discriminate.
    cbn [snd] in Q, F.
    assert (Hafter : after_loop config env st w1 = (Ret path, w'))
      by (destruct x; [exact Hbody | exact Hbody | discriminate]).
    destruct (after_loop_cases config env st w1)
      as [(R & _ & W) | [(e & R & _) | (stem & Hf & _ & R & W)]];
      rewrite Hafter in *; cbn [fst snd] in *.
    + left. inversion R. subst. simpl. rewrite Q, F. repeat split.
    + discriminate.
    + right. right. right.
      exists st, w1, (artifact config stem (recording st)).
      assert (x = Stopped) as ->.
      { destruct x; [|reflexivity|discriminate].
        rewrite (cancelled_means_flag _ _ _ _ _ Hloop) in Hf.
        discriminate. }
      split; [reflexivity|]. split; [exact Hf|]. split; [exact R|].
      split; [simpl; destruct stem; discriminate|].
      subst w'. simpl. rewrite Q, F. repeat split.
  - (* the body raised *)
    right. left.
    destruct (record_body_raise_effects _ _ _ Hbody) as (Q & F & _).
    simpl. rewrite Q, F. repeat split.
  - (* the loop still turns *)
    right. right. left.
    rewrite record_body_cases in Hbody.
    destruct (open_stream env); [discriminate|].
    destruct (capture_loop_world config env (ticks env) initial_locals w)
      as [(Q & F & _) Hs].
    destruct (capture_loop config env (ticks env) initial_locals w)
      as [[[x st]| |] w1] eqn:Hloop; try discriminate.
    + cbn [snd] in Q, F.
      destruct x.
      * destruct (after_loop_cases config env st w1)
          as [(R & _) | [(e & R & _) | (stem & _ & _ & R & _)]];
          rewrite Hbody in R; discriminate.
      * destruct (after_loop_cases config env st w1)
          as [(R & _) | [(e & R & _) | (stem & _ & _ & R & _)]];
          rewrite Hbody in R; discriminate.
      * inversion Hbody. subst. simpl. rewrite Q, F. repeat split.
    + exfalso. apply Hs. reflexivity.
Qed.

(* ================================================================== *)
(** * The mode logic                                                   *)
(* ================================================================== *)

Lemma slice_whole (T : Type) (n : Z) (l : list T) :
  len l = n -> slice_to n l = l /\ slice_from n l = [].
Proof.
  unfold len, slice_to, slice_from, clamp_index. intros <-.
  replace (Z.of_nat (length l) <? 0)%Z with false
    by (symmetry; apply Z.ltb_ge; lia).
  replace (Z.to_nat (Z.min (Z.of_nat (length l))
                       (Z.max 0 (Z.of_nat (length l)))))
    with (length l) by lia.
  split; [apply firstn_all | apply skipn_all].
Qed.

(** A turn that finds an empty buffer and receives one whole frame, the
    flag not being set: the frame goes to the mode logic. *)
Lemma whole_frame_turn (config : Configuration) (env : Env) (t : Tick)
    (ts : list Tick) (st : Locals) (w : World) :
  cancel_set_at env = None ->
  buffer st = [] ->
  whole_frame config t ->
  capture_loop config env (t :: ts) st w =
  match mode_logic config t (arrived t) st (after_reads 2 w) with
  | (Ret (Break st'), w') => (Ret (Stopped, st'), w')
  | (Ret (Next st'), w') => capture_loop config env ts st' w'
  | (Raise e, w') => (Raise e, w')
  | (Spin, w') => (Spin, w')
  end.
Proof.
  intros Hn Hb Hw. rewrite capture_loop_turn.
  rewrite !(flag_at_never env _ Hn). cbv zeta.
  assert (Hbuf : buffer (receive (arrived t) st) = arrived t)
    by (unfold receive; cbn [buffer]; rewrite Hb; reflexivity).
  rewrite !Hbuf.
  unfold whole_frame in Hw. rewrite Hw, Z.ltb_irrefl.
  destruct (slice_whole (arrived t) Hw) as [-> ->].
  replace (set_buffer [] (receive (arrived t) st)) with st;
    [reflexivity|].
  destruct st. cbn in Hb. subst. reflexivity.
Qed.

Lemma unhandled_modes (config : Configuration) :
  handled config = false ->
  mode_is (recording_mode config) PRESS_TO_TOGGLE = false /\
  mode_is (recording_mode config) HOLD_TO_RECORD = false /\
  mode_is (recording_mode config) VOICE_ACTIVITY_DETECTION = false.
Proof.
  unfold handled. intros H.
  apply orb_false_elim in H. destruct H as [H ->].
  apply orb_false_elim in H. destruct H as [-> ->]. auto.
Qed.

(** A member of the enumeration is equal to none of the strings the
    branches compare it with. *)
Lemma member_unhandled (config : Configuration) :
  validate_configuration config = true -> handled config = false.
Proof.
  unfold validate_configuration, handled.
  destruct (recording_mode config); [reflexivity | discriminate].
Qed.

(** Neither is the name of the continuous mode. *)
Lemma continuous_unhandled (config : Configuration) :
  recording_mode config = Name (value CONTINUOUS) -> handled config = false.
Proof. unfold handled. intros ->. reflexivity. Qed.

Lemma unhandled_mode_logic (config : Configuration) (t : Tick)
    (frame : list Z) (st : Locals) (w : World) :
  handled config = false ->
  mode_logic config t frame st w = (Ret (Next st), w).
Proof.
  intros H. destruct (unhandled_modes config H) as (A & B & C).
  unfold mode_logic. rewrite A, B, C. reflexivity.
Qed.

(** With no branch answering, the loop appends nothing and never breaks. *)
Lemma unhandled_loop (config : Configuration) (env : Env) (ts : list Tick) :
  handled config = false ->
  forall (st : Locals) (w : World),
  exists x st' w',
    capture_loop config env ts st w = (Ret (x, st'), w') /\
    x <> Stopped /\
    recording st' = recording st /\
    num_silent_frames st' = num_silent_frames st.
Proof.
  intros H. induction ts as [|t ts IH]; intros st w.
  - exists Turning, st, w. repeat split. discriminate.
  - rewrite capture_loop_turn.
    destruct (flag_at env (flag_reads w)).
    { eexists _, _, _. split; [reflexivity|]. repeat split. discriminate. }
    cbv zeta.
    destruct (len (buffer (receive (arrived t) st)) <? frame_samples config)%Z.
    { apply (IH (receive (arrived t) st)). }
    destruct (flag_at env (S (flag_reads w))).
    { match goal with
      | |- context [capture_loop config env ts ?s ?w'] => apply (IH s w')
      end. }
    rewrite unhandled_mode_logic by exact H.
    match goal with
    | |- context [capture_loop config env ts ?s ?w'] => apply (IH s w')
    end.
Qed.

(** When [record] returns the empty string, so does
    [record_and_transcribe], whatever the flag says. *)
Lemma orchestration_of_nothing (config : Configuration) (env : Env)
    (w w1 : World) :
  record config env w = (Ret [], w1) ->
  record_and_transcribe config env w = (Ret [], after_reads 1 w1).
Proof.
  intros H. unfold record_and_transcribe. unfold bind at 1. rewrite H.
  unfold bind at 1. unfold cancel_flag.
  destruct (flag_at env (flag_reads w1)); reflexivity.
Qed.

(** A configuration that passes [validate_configuration] holds a member of
    the enumeration, which no branch answers to: whatever arrives, the
    service returns the empty string or is still capturing; it writes no
    file and calls no backend. *)
Lemma validated_configuration_transcribes_nothing (config : Configuration)
    (env : Env) (w : World) :
  validate_configuration config = true ->
  let r := record_and_transcribe config env w in
  (fst r = Ret [] \/ fst r = Spin) /\
  files (snd r) = files w /\
  backend_calls (snd r) = backend_calls w.
Proof.
  intros Hv. cbv zeta.
  pose proof (member_unhandled config Hv) as Hu.
  destruct (@unhandled_loop config env (ticks env) Hu initial_locals w)
    as (x & st' & w' & Hloop & Hx & _).
  destruct (capture_loop_world config env (ticks env) initial_locals w)
    as [(_ & F & B & _) _].
  rewrite Hloop in F, B. cbn [snd] in F, B.
  assert (Hrec : (exists w1, record config env w = (Ret [], w1) /\
                             files w1 = files w /\
                             backend_calls w1 = backend_calls w)
                 \/ record config env w = (Spin, w')).
  { rewrite record_cases, record_body_cases.
    destruct (open_stream env) as [e|].
    { left. eexists. split; [reflexivity|]. split; reflexivity. }
    rewrite Hloop. destruct x; [|contradiction|right; reflexivity].
    left. unfold after_loop.
    rewrite (cancelled_means_flag _ _ _ _ _ Hloop).
    destruct (close_stream env);
      (eexists; split; [reflexivity|]; split; simpl; assumption). }
  destruct Hrec as [(w1 & Hr & F1 & B1) | Hr].
  - rewrite (orchestration_of_nothing config env w Hr). simpl.
    split; [left; reflexivity|]. split; congruence.
  - assert (E : record_and_transcribe config env w = (Spin, w'))
      by (unfold record_and_transcribe; unfold bind at 1; rewrite Hr;
          reflexivity).
    rewrite E. simpl.
    split; [right; reflexivity|]. split; assumption.
Qed.

(** ** Press to toggle, the mode being given by its name *)

Section PressToToggle.

Variable config : Configuration.
Variable env : Env.
Hypothesis by_name : recording_mode config = Name (value PRESS_TO_TOGGLE).
Hypothesis never_cancelled : cancel_set_at env = None.

Lemma press_to_toggle_logic (t : Tick) (frame : list Z) (st : Locals)
    (w : World) :
  mode_logic config t frame st w = press_to_toggle_branch t frame st w.
Proof.
  unfold mode_logic. rewrite by_name. cbn [mode_is value].
  change (String.eqb "press_to_toggle" "press_to_toggle") with true.
  change (String.eqb "press_to_toggle" "hold_to_record") with false.
  change (String.eqb "press_to_toggle" "voice_activity_detection") with false.
  cbv iota. unfold press_to_toggle_branch. step_monad.
  destruct (0 <? len (recording st))%Z; [|reflexivity].
  destruct (pressed t) as [[]|]; reflexivity.
Qed.

(** While the key is not pressed, every frame is appended. *)
Lemma press_to_toggle_appends (ts : list Tick) :
  Forall (released_frame config) ts ->
  forall (st : Locals) (w : World),
    buffer st = [] ->
    capture_loop config env ts st w =
    (Ret (Turning, extend (samples_of ts) st),
     after_reads (2 * length ts) w).
Proof.
  induction 1 as [|t ts [Hw Hp] _ IH]; intros st w Hb.
  - simpl. unfold ret, extend, samples_of. simpl.
    rewrite app_nil_r. destruct st, w. reflexivity.
  - rewrite whole_frame_turn by assumption.
    rewrite press_to_toggle_logic. unfold press_to_toggle_branch.
    rewrite Hp. unfold ask, bind, ret.
    destruct (0 <? len (recording st))%Z; cbv beta iota;
      rewrite IH by exact Hb;
      unfold extend, after_reads, samples_of; simpl;
      rewrite app_assoc; do 3 f_equal; lia.
Qed.

(** A frame that finds the key pressed and something recorded ends the
    loop; the frame itself is not appended. *)
Lemma press_to_toggle_stops (t : Tick) (ts : list Tick) (st : Locals)
    (w : World) :
  buffer st = [] ->
  whole_frame config t ->
  pressed t = Ok true ->
  (0 < len (recording st))%Z ->
  capture_loop config env (t :: ts) st w
    = (Ret (Stopped, st), after_reads 2 w).
Proof.
  intros Hb Hw Hp Hr.
  rewrite whole_frame_turn by assumption.
  rewrite press_to_toggle_logic. unfold press_to_toggle_branch.
  apply Z.ltb_lt in Hr. rewrite Hr, Hp. reflexivity.
Qed.

(** With nothing recorded yet, the pressed key does not end the loop: the
    frame is appended. *)
Lemma press_to_toggle_first_frame (t : Tick) (ts : list Tick) (st : Locals)
    (w : World) :
  buffer st = [] ->
  whole_frame config t ->
  recording st = [] ->
  capture_loop config env (t :: ts) st w
    = capture_loop config env ts (extend (arrived t) st) (after_reads 2 w).
Proof.
  intros Hb Hw Hr.
  rewrite whole_frame_turn by assumption.
  rewrite press_to_toggle_logic. unfold press_to_toggle_branch.
  rewrite Hr. reflexivity.
Qed.

End PressToToggle.

Lemma len_samples_of (config : Configuration) (ts : list Tick) :
  Forall (whole_frame config) ts ->
  len (samples_of ts) = (Z.of_nat (length ts) * frame_samples config)%Z.
Proof.
  unfold len, samples_of. induction 1 as [|t ts Hw _ IH]; [reflexivity|].
  cbn [flat_map]. rewrite length_app. unfold whole_frame, len in Hw.
  cbn [length]. lia.
Qed.

Lemma after_reads_after_reads (a b : nat) (w : World) :
  after_reads a (after_reads b w) = after_reads (a + b) w.
Proof. unfold after_reads. simpl. f_equal. lia. Qed.

Lemma result_eq (x : LoopExit) (b r : list Z) (n1 n2 : Z) (k1 k2 : nat)
    (w : World) :
  n1 = n2 -> k1 = k2 ->
  (Ret (x, {| buffer := b; recording := r; num_silent_frames := n1 |}),
   after_reads k1 w) =
  (Ret (x, {| buffer := b; recording := r; num_silent_frames := n2 |}),
   after_reads k2 w).
Proof. intros -> ->. reflexivity. Qed.

Ltac same_result :=
  rewrite ?after_reads_after_reads;
  unfold set_silent, extend;
  cbn [buffer recording num_silent_frames length];
  apply result_eq; rewrite ?length_app; cbn [length]; lia.

(** ** Voice activity detection, the mode being given by its name *)

Section VoiceActivity.

Variable config : Configuration.
Variable env : Env.
Hypothesis by_name :
  recording_mode config = Name (value VOICE_ACTIVITY_DETECTION).
Hypothesis never_cancelled : cancel_set_at env = None.

Lemma voice_activity_logic (t : Tick) (frame : list Z) (st : Locals)
    (w : World) :
  mode_logic config t frame st w = voice_activity_branch config t frame st w.
Proof.
  unfold mode_logic. rewrite by_name. cbn [mode_is value].
  change (String.eqb "voice_activity_detection" "press_to_toggle")
    with false.
  change (String.eqb "voice_activity_detection" "hold_to_record") with false.
  change (String.eqb "voice_activity_detection" "voice_activity_detection")
    with true.
  reflexivity.
Qed.

(** A frame with speech is appended and sets the count of silent frames
    back to zero. *)
Lemma speech_frame_turn (t : Tick) (ts : list Tick) (st : Locals)
    (w : World) :
  buffer st = [] ->
  whole_frame config t ->
  speech t = Ok true ->
  capture_loop config env (t :: ts) st w =
  capture_loop config env ts (set_silent 0 (extend (arrived t) st))
    (after_reads 2 w).
Proof.
  intros Hb Hw Hs. rewrite whole_frame_turn by assumption.
  rewrite voice_activity_logic. unfold voice_activity_branch.
  rewrite Hs. reflexivity.
Qed.

(** A frame without speech, nothing being recorded yet: nothing changes,
    as long as the threshold is positive. *)
Lemma silence_before_speech (ts : list Tick) :
  (0 < num_silence_frames config)%Z ->
  Forall (silent_frame config) ts ->
  forall (st : Locals) (w : World),
    buffer st = [] ->
    recording st = [] ->
    num_silent_frames st = 0%Z ->
    capture_loop config env ts st w =
    (Ret (Turning, st), after_reads (2 * length ts) w).
Proof.
  intros Hpos. induction 1 as [|t ts [Hw Hs] _ IH]; intros st w Hb Hr Hz.
  - destruct w. reflexivity.
  - rewrite whole_frame_turn by assumption.
    rewrite voice_activity_logic. unfold voice_activity_branch.
    rewrite Hs, Hr. unfold ask, bind, ret. cbn [len length Z.of_nat Z.ltb
      Z.compare]. cbv beta iota. rewrite Hz.
    replace (num_silence_frames config <=? 0)%Z with false
      by (symmetry; apply Z.leb_gt; exact Hpos).
    rewrite IH by assumption.
    rewrite after_reads_after_reads. do 2 f_equal. cbn [length]. lia.
Qed.

(** A frame without speech, something being recorded: the count goes up by
    one, and the loop goes on while the count stays under the threshold. *)
Lemma silence_counted (ts : list Tick) :
  Forall (silent_frame config) ts ->
  forall (st : Locals) (w : World),
    buffer st = [] ->
    (0 < len (recording st))%Z ->
    (num_silent_frames st + Z.of_nat (length ts)
     < num_silence_frames config)%Z ->
    capture_loop config env ts st w =
    (Ret (Turning,
          set_silent (num_silent_frames st + Z.of_nat (length ts)) st),
     after_reads (2 * length ts) w).
Proof.
  induction 1 as [|t ts [Hw Hs] _ IH]; intros st w Hb Hr Hlt.
  - simpl. unfold ret, set_silent. rewrite Z.add_0_r.
    destruct st, w. reflexivity.
  - rewrite whole_frame_turn by assumption.
    rewrite voice_activity_logic. unfold voice_activity_branch.
    rewrite Hs. unfold ask, bind, ret. cbv beta iota zeta.
    pose proof Hr as Hr'. apply Z.ltb_lt in Hr'. rewrite Hr'.
    cbn [num_silent_frames set_silent].
    replace (num_silence_frames config <=? num_silent_frames st + 1)%Z
      with false
      by (symmetry; apply Z.leb_gt; cbn [length] in Hlt; lia).
    rewrite IH.
    + same_result.
    + exact Hb.
    + exact Hr.
    + cbn [num_silent_frames set_silent]. cbn [length] in Hlt. lia.
Qed.

(** The frame without speech that brings the count to the threshold ends
    the loop. *)
Lemma silence_stops (t : Tick) (ts : list Tick) (st : Locals) (w : World) :
  buffer st = [] ->
  silent_frame config t ->
  (0 < len (recording st))%Z ->
  (num_silence_frames config <= num_silent_frames st + 1)%Z ->
  capture_loop config env (t :: ts) st w =
  (Ret (Stopped, set_silent (num_silent_frames st + 1) st),
   after_reads 2 w).
Proof.
  intros Hb [Hw Hs] Hr Hge. rewrite whole_frame_turn by assumption.
  rewrite voice_activity_logic. unfold voice_activity_branch.
  rewrite Hs. unfold ask, bind, ret. cbv beta iota zeta.
  apply Z.ltb_lt in Hr. rewrite Hr.
  cbn [num_silent_frames set_silent].
  apply Z.leb_le in Hge. rewrite Hge. reflexivity.
Qed.

(** After a frame with speech the loop goes on through fewer than
    [num_silence_frames] frames without speech, whatever came before. *)
Lemma speech_then_short_silence (t : Tick) (quiet : list Tick)
    (st : Locals) (w : World) :
  buffer st = [] ->
  whole_frame config t ->
  speech t = Ok true ->
  (0 < frame_samples config)%Z ->
  Forall (silent_frame config) quiet ->
  (Z.of_nat (length quiet) < num_silence_frames config)%Z ->
  capture_loop config env (t :: quiet) st w =
  (Ret (Turning,
        set_silent (Z.of_nat (length quiet)) (extend (arrived t) st)),
   after_reads (2 * length (t :: quiet)) w).
Proof.
  intros Hb Hw Hs Hpos Hq Hlt.
  rewrite speech_frame_turn by assumption.
  rewrite silence_counted.
  - same_result.
  - exact Hq.
  - exact Hb.
  - cbn [recording set_silent extend]. unfold len. rewrite length_app.
    unfold whole_frame, len in Hw. lia.
  - cbn [num_silent_frames set_silent]. lia.
Qed.

(** After a frame with speech, the frame without speech that completes a
    run of [num_silence_frames] ends the loop: the run being [quiet ++ [t']]. *)
Lemma speech_then_full_silence (t : Tick) (quiet : list Tick) (t' : Tick)
    (rest : list Tick) (st : Locals) (w : World) :
  buffer st = [] ->
  whole_frame config t ->
  speech t = Ok true ->
  (0 < frame_samples config)%Z ->
  Forall (silent_frame config) quiet ->
  silent_frame config t' ->
  (Z.of_nat (length quiet) + 1 = num_silence_frames config)%Z ->
  capture_loop config env (t :: quiet ++ t' :: rest) st w =
  (Ret (Stopped,
        set_silent (num_silence_frames config) (extend (arrived t) st)),
   after_reads (2 * length (t :: quiet ++ [t'])) w).
Proof.
  intros Hb Hw Hs Hpos Hq Hq' Hn.
  change (t :: quiet ++ t' :: rest) with ((t :: quiet) ++ t' :: rest).
  rewrite capture_loop_app, speech_then_short_silence by (assumption || lia).
  assert (Hrec : (0 < len (recording (extend (arrived t) st)))%Z).
  { cbn [recording extend]. unfold len. rewrite length_app.
    unfold whole_frame, len in Hw. lia. }
  rewrite silence_stops.
  - same_result.
  - exact Hb.
  - exact Hq'.
  - exact Hrec.
  - cbn [num_silent_frames set_silent]. lia.
Qed.

End VoiceActivity.

(* ================================================================== *)
(** * The modes, as configured                                         *)
(* ================================================================== *)

(** With the mode given by name, ten frames and then the key: the loop
    breaks at the eleventh frame with ten frames recorded. *)
Lemma ten_frames_then_toggle (config : Configuration) (env : Env)
    (ts : list Tick) (t : Tick) (rest : list Tick) (w : World) :
  recording_mode config = Name (value PRESS_TO_TOGGLE) ->
  cancel_set_at env = None ->
  (0 < frame_samples config)%Z ->
  length ts = 10 ->
  Forall (released_frame config) ts ->
  whole_frame config t ->
  pressed t = Ok true ->
  exists st',
    capture_loop config env (ts ++ t :: rest) initial_locals w
      = (Ret (Stopped, st'), after_reads 22 w) /\
    recording st' = samples_of ts /\
    len (recording st') = (10 * frame_samples config)%Z.
Proof.
  intros Hm Hn Hpos Hlen Hts Hw Hp.
  assert (Hwhole : Forall (whole_frame config) ts).
  { eapply Forall_impl; [|exact Hts]. intros a [H _]. exact H. }
  pose proof (len_samples_of Hwhole) as Hsz. rewrite Hlen in Hsz.
  exists (extend (samples_of ts) initial_locals).
  rewrite capture_loop_app.
  rewrite press_to_toggle_appends by first [assumption | reflexivity].
  assert (Hrec : (0 < len (recording (extend (samples_of ts)
                                        initial_locals)))%Z)
    by (simpl recording; rewrite Hsz; lia).
  rewrite press_to_toggle_stops by first [assumption | reflexivity].
  rewrite after_reads_after_reads, Hlen. repeat split.
  simpl recording. rewrite Hsz. lia.
Qed.

(** The same, run: ten frames at 16 kHz give 4800 samples. *)
Example ten_frames_then_toggle_16k :
  exists st',
    capture_loop (named PRESS_TO_TOGGLE)
      (studio (repeat (frame_tick false false) 10 ++ [frame_tick true false]))
      (repeat (frame_tick false false) 10 ++ [frame_tick true false])
      initial_locals fresh_world
      = (Ret (Stopped, st'), after_reads 22 fresh_world) /\
    recording st' = samples_of (repeat (frame_tick false false) 10) /\
    len (recording st') = (10 * frame_samples (named PRESS_TO_TOGGLE))%Z.
Proof.
  apply (@ten_frames_then_toggle (named PRESS_TO_TOGGLE)
           (studio (repeat (frame_tick false false) 10
                    ++ [frame_tick true false]))
           (repeat (frame_tick false false) 10) (frame_tick true false) []
           fresh_world); try reflexivity.
  repeat constructor.
Qed.

(** The end-to-end example of the specification, the mode being given by
    name: the local backend answers " test" and " transcription.", the text
    returned is "test transcription". *)
Example end_to_end_by_name :
  fst (record_and_transcribe (named PRESS_TO_TOGGLE)
         (studio (repeat (frame_tick false false) 10
                  ++ [frame_tick true false]))
         fresh_world)
  = Ret (lit "test transcription").
Proof. vm_compute. reflexivity. Qed.

(** C8 fails on the code.  [Configuration] stores a member of the
    enumeration; the loop compares it with the member's string value, the
    press-to-toggle branch is never entered, nothing is appended and the
    signal does not stop the loop.  After ten frames and the toggle the loop
    still turns with an empty recording. *)
Theorem press_to_toggle_member_records_nothing :
  let config := member PRESS_TO_TOGGLE in
  let env := studio (repeat (frame_tick false false) 10
                     ++ [frame_tick true false]) in
  validate_configuration config = true /\
  capture_loop config env (ticks env) initial_locals fresh_world
    = (Ret (Turning, initial_locals), after_reads 22 fresh_world) /\
  len (recording initial_locals) <> (10 * frame_samples config)%Z /\
  fst (record_and_transcribe config env fresh_world) = Spin.
Proof.
  cbv zeta. split; [reflexivity|].
  split; [vm_compute; reflexivity|].
  split; [vm_compute; discriminate|].
  vm_compute. reflexivity.
Qed.

(** With the mode given by name and [silence_duration = 900]: after a frame
    with speech, 29 frames without speech leave the loop turning, and the
    30th ends it. *)
Lemma thirty_silent_frames (config : Configuration) (env : Env)
    (t : Tick) (quiet : list Tick) (t' : Tick) (rest : list Tick)
    (st : Locals) (w : World) :
  recording_mode config = Name (value VOICE_ACTIVITY_DETECTION) ->
  silence_duration config = 900%Z ->
  cancel_set_at env = None ->
  (0 < frame_samples config)%Z ->
  buffer st = [] ->
  whole_frame config t ->
  speech t = Ok true ->
  Forall (silent_frame config) quiet ->
  silent_frame config t' ->
  length quiet = 29 ->
  num_silence_frames config = 30%Z /\
  capture_loop config env (t :: quiet) st w =
    (Ret (Turning, set_silent 29 (extend (arrived t) st)),
     after_reads 60 w) /\
  capture_loop config env (t :: quiet ++ t' :: rest) st w =
    (Ret (Stopped, set_silent 30 (extend (arrived t) st)),
     after_reads 62 w).
Proof.
  intros Hm Hd Hn Hpos Hb Hw Hs Hq Hq' Hlen.
  assert (H30 : num_silence_frames config = 30%Z)
    by (unfold num_silence_frames; rewrite Hd; reflexivity).
  split; [exact H30|]. split.
  - rewrite speech_then_short_silence
      by first [assumption | rewrite H30, Hlen; reflexivity].
    cbn [length]. rewrite Hlen. reflexivity.
  - rewrite speech_then_full_silence
      by first [assumption | rewrite H30, Hlen; reflexivity].
    rewrite H30. cbn [length]. rewrite length_app, Hlen. reflexivity.
Qed.

(** Before any speech, silence never ends the loop, however long. *)
Lemma silence_alone_never_stops (config : Configuration) (env : Env)
    (quiet : list Tick) (w : World) :
  recording_mode config = Name (value VOICE_ACTIVITY_DETECTION) ->
  silence_duration config = 900%Z ->
  cancel_set_at env = None ->
  Forall (silent_frame config) quiet ->
  capture_loop config env quiet initial_locals w =
  (Ret (Turning, initial_locals), after_reads (2 * length quiet) w).
Proof.
  intros Hm Hd Hn Hq.
  apply silence_before_speech; try assumption; try reflexivity.
  unfold num_silence_frames. rewrite Hd. reflexivity.
Qed.

(** C3 fails on the code.  The threshold is 30, as claimed, but with the
    default [Configuration] the voice-activity branch is never entered: the
    attribute is a member of the enumeration and is compared with a string.
    After a frame with speech and 30 frames without, nothing is recorded
    and the loop still turns. *)
Theorem voice_activity_member_never_stops :
  let config := default_configuration in
  let env := studio (frame_tick false true
                     :: repeat (frame_tick false false) 30) in
  recording_mode config = Member VOICE_ACTIVITY_DETECTION /\
  validate_configuration config = true /\
  num_silence_frames config = 30%Z /\
  capture_loop config env (ticks env) initial_locals fresh_world
    = (Ret (Turning, initial_locals), after_reads 62 fresh_world) /\
  fst (record_and_transcribe config env fresh_world) = Spin.
Proof.
  cbv zeta. repeat split; vm_compute; reflexivity.
Qed.

(** In continuous mode, under either form of the attribute, no branch
    answers: nothing is appended and the loop never breaks. *)
Lemma continuous_never_records (config : Configuration) (env : Env)
    (ts : list Tick) (st : Locals) (w : World) :
  recording_mode config = Member CONTINUOUS \/
  recording_mode config = Name (value CONTINUOUS) ->
  exists x st' w',
    capture_loop config env ts st w = (Ret (x, st'), w') /\
    x <> Stopped /\
    recording st' = recording st.
Proof.
  intros H.
  assert (Hu : handled config = false).
  { destruct H as [H|H].
    - apply member_unhandled. unfold validate_configuration.
      rewrite H. reflexivity.
    - apply continuous_unhandled. exact H. }
  destruct (@unhandled_loop config env ts Hu st w)
    as (x & st' & w' & A & B & C & _).
  exists x, st', w'. auto.
Qed.

(** C7 fails on the code in its first half: in continuous mode the frames
    that arrive are consumed and dropped.  After six frames the recording
    is empty, whether the mode is stored as a member or as a name; the loop
    is then only left by cancellation, and the session returns the empty
    string. *)
Theorem continuous_mode_appends_nothing :
  let env := studio (repeat (frame_tick false true) 6) in
  capture_loop (member CONTINUOUS) env (ticks env) initial_locals fresh_world
    = (Ret (Turning, initial_locals), after_reads 12 fresh_world) /\
  capture_loop (named CONTINUOUS) env (ticks env) initial_locals fresh_world
    = (Ret (Turning, initial_locals), after_reads 12 fresh_world) /\
  record_and_transcribe (named CONTINUOUS) (cancelled_after 10 env) fresh_world
    = (Ret [],
       after_reads 1 (queued cancel_event (after_reads 12 fresh_world))).
Proof.
  cbv zeta. repeat split; vm_compute; reflexivity.
Qed.

(* ================================================================== *)
(** * More on the capture loop                                         *)
(* ================================================================== *)

(** The frame cut from a buffer that is long enough has exactly
    [frame_samples] samples, and together with what stays in the buffer it
    is the buffer. *)
Lemma frame_cut (T : Type) (n : Z) (l : list T) :
  (0 <= n)%Z -> (len l <? n)%Z = false -> len (slice_to n l) = n.
Proof.
  unfold len, slice_to, clamp_index. intros Hn Hl.
  apply Z.ltb_ge in Hl.
  replace (n <? 0)%Z with false by (symmetry; apply Z.ltb_ge; lia).
  rewrite length_firstn. lia.
Qed.

Lemma frame_and_rest (T : Type) (n : Z) (l : list T) :
  slice_to n l ++ slice_from n l = l.
Proof. unfold slice_to, slice_from. apply firstn_skipn. Qed.

Lemma whole_frames_extend (config : Configuration) (frame : list Z)
    (st : Locals) :
  len frame = frame_samples config ->
  whole_frames config st -> whole_frames config (extend frame st).
Proof.
  intros Hf [k Hk]. exists (S k). unfold len in *. cbn [recording extend].
  rewrite length_app. lia.
Qed.

Lemma mode_logic_whole_frames (config : Configuration) (t : Tick)
    (frame : list Z) (st : Locals) (w : World) :
  len frame = frame_samples config ->
  whole_frames config st ->
  match fst (mode_logic config t frame st w) with
  | Ret (Break st') | Ret (Next st') => whole_frames config st'
  | _ => True
  end.
Proof.
  intros Hf Hst.
  pose proof (@whole_frames_extend config frame st Hf Hst) as H1.
  pose proof (@whole_frames_extend config frame _ Hf H1) as H2.
  unfold mode_logic, press_to_toggle_branch, hold_to_record_branch,
    voice_activity_branch.
  step_monad.
  destruct (mode_is (recording_mode config) PRESS_TO_TOGGLE);
    destruct (mode_is (recording_mode config) HOLD_TO_RECORD);
    destruct (mode_is (recording_mode config) VOICE_ACTIVITY_DETECTION);
    destruct (0 <? len (recording st))%Z;
    destruct (pressed t) as [[]|]; destruct (speech t) as [[]|];
    cbn -[extend whole_frames];
    repeat match goal with
           | |- context [if ?b then _ else _] =>
               destruct b; cbn -[extend whole_frames]
           end;
    try exact I; try exact Hst; try exact H1; try exact H2.
Qed.

Lemma capture_loop_whole_frames (config : Configuration) (env : Env)
    (ts : list Tick) :
  (0 <= frame_samples config)%Z ->
  forall (st : Locals) (w : World),
    whole_frames config st ->
    match fst (capture_loop config env ts st w) with
    | Ret (_, st') => whole_frames config st'
    | _ => True
    end.
Proof.
  intros Hn. induction ts as [|t ts IH]; intros st w Hst; [exact Hst|].
  rewrite capture_loop_turn.
  destruct (flag_at env (flag_reads w)); [exact Hst|].
  cbv zeta.
  destruct (len (buffer (receive (arrived t) st)) <? frame_samples config)%Z
    eqn:Hshort.
  { apply IH. exact Hst. }
  destruct (flag_at env (S (flag_reads w))).
  { apply IH. exact Hst. }
  match goal with
  | |- context [mode_logic ?c ?t ?f ?s ?w0] =>
      pose proof (@mode_logic_whole_frames c t f s w0
                    (@frame_cut _ _ _ Hn Hshort) Hst) as Hm;
      destruct (mode_logic c t f s w0) as [[[st'|st']|e|] w2]
  end; cbn [fst] in Hm |- *; try exact I; [exact Hm|].
  apply IH. exact Hm.
Qed.

Lemma tobytes_length (samples : list Z) :
  len (tobytes samples) = (2 * len samples)%Z.
Proof.
  unfold len, tobytes. induction samples as [|z r IH]; [reflexivity|].
  cbn [flat_map length app]. lia.
Qed.

(** X1.  Whatever the mode, the environment and the moment the loop is
    looked at, the recording is a whole number of frames of
    [sample_rate * 30 // 1000] samples (the rate not being negative), and the
    audio file written from it holds two bytes for each of these samples. *)
Theorem recording_is_whole_frames (config : Configuration) (env : Env)
    (ts : list Tick) (w w' : World) (x : LoopExit) (st' : Locals)
    (stem : str) :
  (0 <= frame_samples config)%Z ->
  capture_loop config env ts initial_locals w = (Ret (x, st'), w') ->
  exists k : nat,
    len (recording st') = (Z.of_nat k * frame_samples config)%Z /\
    len (frames (artifact config stem (recording st')))
      = (2 * (Z.of_nat k * frame_samples config))%Z.
Proof.
  intros Hn Hloop.
  assert (Hinit : whole_frames config initial_locals) by (exists 0; reflexivity).
  pose proof (@capture_loop_whole_frames config env ts Hn initial_locals w
                Hinit) as H.
  rewrite Hloop in H. cbn [fst] in H. destruct H as [k Hk].
  exists k. split; [exact Hk|].
  cbn [frames artifact]. rewrite tobytes_length, Hk. reflexivity.
Qed.

Lemma recording_is_whole_frames_witness :
  exists k : nat,
    len (recording (set_silent 1
                      (extend frame16k (extend frame16k initial_locals))))
      = (Z.of_nat k * frame_samples (named VOICE_ACTIVITY_DETECTION))%Z /\
    len (frames (artifact (named VOICE_ACTIVITY_DETECTION) (lit "/tmp/a")
                   (recording (set_silent 1
                      (extend frame16k (extend frame16k initial_locals))))))
      = (2 * (Z.of_nat k * frame_samples (named VOICE_ACTIVITY_DETECTION)))%Z.
Proof.
  apply (@recording_is_whole_frames (named VOICE_ACTIVITY_DETECTION)
           (studio [])
           [frame_tick false true; frame_tick false true;
            frame_tick false false]
           fresh_world (after_reads 6 fresh_world) Turning
           (set_silent 1 (extend frame16k (extend frame16k initial_locals)))
           (lit "/tmp/a")).
  - vm_compute. discriminate.
  - vm_compute. reflexivity.
Defined.

(** ** Turns that find a frame, and turns that find none *)

Lemma len_app (T : Type) (a b : list T) : len (a ++ b) = (len a + len b)%Z.
Proof. unfold len. rewrite length_app. lia. Qed.

Lemma slice_to_app (T : Type) (n : Z) (l l' : list T) :
  (0 <= n)%Z -> (n <= len l)%Z -> slice_to n (l ++ l') = slice_to n l.
Proof.
  unfold len, slice_to, clamp_index. intros H0 Hn.
  replace (n <? 0)%Z with false by (symmetry; apply Z.ltb_ge; lia).
  rewrite length_app.
  replace (Z.to_nat (Z.min (Z.of_nat (length l + length l')) (Z.max 0 n)))
    with (Z.to_nat n) by lia.
  replace (Z.to_nat (Z.min (Z.of_nat (length l)) (Z.max 0 n)))
    with (Z.to_nat n) by lia.
  rewrite firstn_app.
  replace (Z.to_nat n - length l) with 0 by lia.
  cbn [firstn]. apply app_nil_r.
Qed.

Lemma receive_receive (a b : list Z) (st : Locals) :
  receive b (receive a st) = receive (a ++ b) st.
Proof.
  unfold receive. cbn [buffer recording num_silent_frames].
  rewrite app_assoc. reflexivity.
Qed.

Lemma samples_of_cons (t : Tick) (ts : list Tick) :
  samples_of (t :: ts) = arrived t ++ samples_of ts.
Proof. reflexivity. Qed.

(** Turns that find no whole frame only take what arrives. *)
Lemma waiting_turns (config : Configuration) (env : Env) (ts : list Tick) :
  cancel_set_at env = None ->
  forall (st : Locals) (w : World),
    waits config st ts ->
    capture_loop config env ts st w
      = (Ret (Turning, receive (samples_of ts) st),
         after_reads (length ts) w).
Proof.
  intros Hn. unfold waits.
  induction ts as [|t ts IH]; intros st w Hlen.
  - cbn. unfold ret, receive, after_reads, samples_of. cbn.
    rewrite app_nil_r. destruct st, w; reflexivity.
  - rewrite capture_loop_turn, (flag_at_never env _ Hn). cbv zeta.
    rewrite samples_of_cons, app_assoc in Hlen.
    assert (E : (len (buffer (receive (arrived t) st))
                 <? frame_samples config)%Z = true).
    { apply Z.ltb_lt. cbn [buffer receive].
      rewrite len_app in Hlen. unfold len in *. lia. }
    rewrite E.
    rewrite IH by (cbn [buffer receive]; exact Hlen).
    rewrite receive_receive, after_reads_after_reads, samples_of_cons.
    replace (length ts + 1) with (length (t :: ts)) by (cbn [length]; lia).
    reflexivity.
Qed.

(** A turn that finds a frame, the flag not being set: the frame goes to
    the mode logic, the rest stays in the buffer. *)
Lemma ready_turn (config : Configuration) (env : Env) (t : Tick)
    (ts : list Tick) (st : Locals) (w : World) :
  cancel_set_at env = None ->
  finds_frame config st t ->
  capture_loop config env (t :: ts) st w =
  match mode_logic config t
          (slice_to (frame_samples config) (buffer st ++ arrived t))
          (set_buffer (slice_from (frame_samples config)
                         (buffer st ++ arrived t)) st)
          (after_reads 2 w) with
  | (Ret (Break st'), w') => (Ret (Stopped, st'), w')
  | (Ret (Next st'), w') => capture_loop config env ts st' w'
  | (Raise e, w') => (Raise e, w')
  | (Spin, w') => (Spin, w')
  end.
Proof.
  intros Hn Hr. unfold finds_frame in Hr.
  rewrite capture_loop_turn, !(flag_at_never env _ Hn). cbv zeta.
  cbn [buffer receive]. apply Z.ltb_ge in Hr. rewrite Hr. reflexivity.
Qed.

(** ** Press to toggle by name: no sample is lost *)

Section Conservation.

Variable config : Configuration.
Variable env : Env.
Hypothesis by_name : recording_mode config = Name (value PRESS_TO_TOGGLE).
Hypothesis never_cancelled : cancel_set_at env = None.

Lemma press_to_toggle_released (t : Tick) (frame : list Z) (st : Locals)
    (w : World) :
  pressed t = Ok false ->
  mode_logic config t frame st w = (Ret (Next (extend frame st)), w).
Proof.
  intros Hp. rewrite press_to_toggle_logic by exact by_name.
  unfold press_to_toggle_branch. rewrite Hp. unfold ask, bind, ret.
  destruct (0 <? len (recording st))%Z; reflexivity.
Qed.

Lemma conservation (ts : list Tick) :
  Forall (fun t => pressed t = Ok false) ts ->
  forall (st : Locals) (w : World),
  exists st' w',
    capture_loop config env ts st w = (Ret (Turning, st'), w') /\
    recording st' ++ buffer st' = recording st ++ buffer st ++ samples_of ts.
Proof.
  induction 1 as [|t ts Hp _ IH]; intros st w.
  - exists st, w. split; [reflexivity|].
    unfold samples_of. simpl. rewrite app_nil_r. reflexivity.
  - rewrite capture_loop_turn.
    rewrite !(flag_at_never env _ never_cancelled). cbv zeta.
    destruct (len (buffer (receive (arrived t) st)) <? frame_samples config)%Z.
    + destruct (IH (receive (arrived t) st) (after_reads 1 w))
        as (st' & w' & Hl & Hc).
      exists st', w'. split; [exact Hl|]. rewrite Hc.
      unfold samples_of. cbn [recording buffer receive flat_map].
      rewrite <- !app_assoc. reflexivity.
    + rewrite press_to_toggle_released by exact Hp.
      match goal with
      | |- context [capture_loop config env ts ?s ?w0] =>
          destruct (IH s w0) as (st' & w' & Hl & Hc)
      end.
      exists st', w'. split; [exact Hl|]. rewrite Hc.
      unfold samples_of.
      cbn [recording buffer receive set_buffer extend flat_map].
      rewrite <- !app_assoc. f_equal. rewrite !app_assoc. f_equal.
      apply frame_and_rest.
Qed.

End Conservation.

(** X2.  Press to toggle, the mode given by name, the key up, the flag
    never set.  The loop itself drops nothing of what reaches it: however the
    samples that the turns find on the buffer are cut into blocks, and
    however many turns find nothing, the recording followed by what is left
    in the buffer is, sample for sample and in order, all of them.  (A block
    that the callback adds between the slice and the rebinding of line 98
    reaches no turn and is not counted: see [Tick].) *)
Theorem press_to_toggle_loses_no_sample (config : Configuration) (env : Env)
    (ts : list Tick) (w : World) :
  recording_mode config = Name (value PRESS_TO_TOGGLE) ->
  cancel_set_at env = None ->
  Forall (fun t => pressed t = Ok false) ts ->
  exists st' w',
    capture_loop config env ts initial_locals w = (Ret (Turning, st'), w') /\
    recording st' ++ buffer st' = samples_of ts.
Proof.
  intros Hm Hn Hp.
  destruct (@conservation config env Hm Hn ts Hp initial_locals w)
    as (st' & w' & Hl & Hc).
  exists st', w'. split; [exact Hl|]. exact Hc.
Qed.

Lemma press_to_toggle_loses_no_sample_witness :
  exists st' w',
    capture_loop (named PRESS_TO_TOGGLE) (studio [])
      [block 300 1; block 300 2; block 500 3] initial_locals fresh_world
      = (Ret (Turning, st'), w') /\
    recording st' ++ buffer st'
      = samples_of [block 300 1; block 300 2; block 500 3].
Proof.
  apply (@press_to_toggle_loses_no_sample (named PRESS_TO_TOGGLE) (studio [])
           [block 300 1; block 300 2; block 500 3] fresh_world).
  - reflexivity.
  - reflexivity.
  - repeat constructor.
Defined.

(** ** Hold to record, the mode being given by its name *)

Section HoldToRecord.

Variable config : Configuration.
Variable env : Env.
Hypothesis by_name : recording_mode config = Name (value HOLD_TO_RECORD).
Hypothesis never_cancelled : cancel_set_at env = None.

Lemma hold_to_record_logic (t : Tick) (frame : list Z) (st : Locals)
    (w : World) :
  mode_logic config t frame st w = hold_to_record_branch t frame st w.
Proof.
  unfold mode_logic. rewrite by_name. cbn [mode_is value].
  change (String.eqb "hold_to_record" "press_to_toggle") with false.
  change (String.eqb "hold_to_record" "hold_to_record") with true.
  reflexivity.
Qed.

(** While the loop turns, every frame cut from the buffer has been
    recorded: nothing is left out between the recording and the buffer. *)
Lemma hold_to_record_conserves (ts : list Tick) :
  forall (st : Locals) (w : World) (st1 : Locals) (w1 : World),
    capture_loop config env ts st w = (Ret (Turning, st1), w1) ->
    recording st1 ++ buffer st1
      = (recording st ++ buffer st) ++ samples_of ts.
Proof.
  induction ts as [|t ts IH]; intros st w st1 w1 H.
  - cbn in H. unfold ret in H. inversion H; subst.
    unfold samples_of. cbn [flat_map]. rewrite app_nil_r. reflexivity.
  - rewrite capture_loop_turn in H.
    rewrite !(flag_at_never env _ never_cancelled) in H. cbv zeta in H.
    rewrite samples_of_cons.
    destruct (len (buffer (receive (arrived t) st)) <? frame_samples config)%Z.
    + rewrite (IH _ _ _ _ H). cbn [recording buffer receive].
      rewrite <- !app_assoc. reflexivity.
    + rewrite hold_to_record_logic in H.
      unfold hold_to_record_branch, ask, bind, ret, raise in H.
      destruct (pressed t) as [[|]|e]; try discriminate.
      rewrite (IH _ _ _ _ H).
      cbn [recording buffer receive set_buffer extend].
      rewrite <- !app_assoc. f_equal. rewrite !app_assoc. f_equal.
      apply frame_and_rest.
Qed.

(** With the key down the loop is not left. *)
Lemma hold_to_record_goes_on (ts : list Tick) :
  Forall key_down ts ->
  forall (st : Locals) (w : World),
  exists st1 w1,
    capture_loop config env ts st w = (Ret (Turning, st1), w1).
Proof.
  induction 1 as [|t ts Hp _ IH]; intros st w.
  - exists st, w. reflexivity.
  - rewrite capture_loop_turn.
    rewrite !(flag_at_never env _ never_cancelled). cbv zeta.
    destruct (len (buffer (receive (arrived t) st)) <? frame_samples config)%Z;
      [apply IH|].
    rewrite hold_to_record_logic. unfold hold_to_record_branch.
    unfold key_down in Hp. rewrite Hp. unfold ask, bind, ret. cbv beta iota.
    apply IH.
Qed.

(** A turn that finds a frame and the key up ends the loop. *)
Lemma hold_to_record_release (t : Tick) (rest : list Tick) (st : Locals)
    (w : World) :
  finds_frame config st t ->
  pressed t = Ok false ->
  capture_loop config env (t :: rest) st w
    = (Ret (Stopped,
            set_buffer (slice_from (frame_samples config)
                          (buffer st ++ arrived t)) st),
       after_reads 2 w).
Proof.
  intros Hr Hp. rewrite ready_turn by assumption.
  rewrite hold_to_record_logic. unfold hold_to_record_branch.
  rewrite Hp. reflexivity.
Qed.

End HoldToRecord.

(** X3.  Hold to record, the mode given by name, the flag never set,
    whatever blocks arrive and however many turns find no frame.  With the
    key down in every turn the loop goes on.  Whenever the loop still turns
    after the turns [held], all that has reached it is in the recording or
    waits in the buffer, in order: the frames are recorded as they are cut.
    From there, after any turns [idle] that find no whole frame, the first
    turn that finds a frame and the key up ends the loop at once; that frame
    is not recorded, and what would have followed is not looked at. *)
Theorem hold_to_record_records_while_held (config : Configuration)
    (env : Env) (held : list Tick) (w : World) :
  recording_mode config = Name (value HOLD_TO_RECORD) ->
  cancel_set_at env = None ->
  (Forall key_down held ->
   exists st1 w1,
     capture_loop config env held initial_locals w
       = (Ret (Turning, st1), w1)) /\
  (forall (st1 : Locals) (w1 : World),
      capture_loop config env held initial_locals w
        = (Ret (Turning, st1), w1) ->
      recording st1 ++ buffer st1 = samples_of held /\
      forall (idle : list Tick) (t : Tick) (rest : list Tick),
        waits config st1 idle ->
        finds_frame config (receive (samples_of idle) st1) t ->
        pressed t = Ok false ->
        exists st',
          capture_loop config env (held ++ idle ++ t :: rest)
            initial_locals w
            = (Ret (Stopped, st'), after_reads (length idle + 2) w1) /\
          recording st' = recording st1).
Proof.
  intros Hm Hn. split.
  - intros Hheld.
    exact (@hold_to_record_goes_on config env Hm Hn held Hheld
             initial_locals w).
  - intros st1 w1 Hrun. split.
    + exact (@hold_to_record_conserves config env Hm Hn held
               initial_locals w st1 w1 Hrun).
    + intros idle t rest Hidle Hready Hp.
      eexists. split.
      * rewrite capture_loop_app, Hrun.
        rewrite capture_loop_app.
        rewrite (@waiting_turns config env idle Hn st1 w1 Hidle).
        rewrite (@hold_to_record_release config env Hm Hn t rest
                   (receive (samples_of idle) st1)
                   (after_reads (length idle) w1) Hready Hp).
        rewrite after_reads_after_reads.
        replace (2 + length idle) with (length idle + 2) by lia.
        reflexivity.
      * reflexivity.
Qed.

Lemma hold_to_record_records_while_held_witness :
  exists st',
    capture_loop (named HOLD_TO_RECORD) (studio [])
      ([frame_tick true false; idle_tick true; frame_tick true true]
       ++ [idle_tick false; block 200 3]
       ++ block 300 4 :: [frame_tick true false])
      initial_locals fresh_world
      = (Ret (Stopped, st'),
         after_reads (2 + 2) (after_reads 5 fresh_world)) /\
    recording st' = frame16k ++ frame16k.
Proof.
  destruct (@hold_to_record_records_while_held (named HOLD_TO_RECORD)
              (studio [])
              [frame_tick true false; idle_tick true; frame_tick true true]
              fresh_world eq_refl eq_refl) as [_ H].
  destruct (H {| buffer := []; recording := frame16k ++ frame16k;
                 num_silent_frames := 0 |}
              (after_reads 5 fresh_world)) as [_ H'].
  - vm_compute. reflexivity.
  - apply (H' [idle_tick false; block 200 3] (block 300 4)
              [frame_tick true false]).
    + vm_compute. reflexivity.
    + vm_compute. discriminate.
    + reflexivity.
Defined.

(** ** Voice activity detection by name: what is recorded *)




(** The count of silent frames is never negative. *)
Lemma mode_logic_silent_count (config : Configuration) (t : Tick)
    (frame : list Z) (st : Locals) (w : World) :
  (0 <= num_silent_frames st)%Z ->
  match fst (mode_logic config t frame st w) with
  | Ret (Break st') | Ret (Next st') => (0 <= num_silent_frames st')%Z
  | _ => True
  end.
Proof.
  intros Hst.
  unfold mode_logic, press_to_toggle_branch, hold_to_record_branch,
    voice_activity_branch.
  step_monad.
  destruct (mode_is (recording_mode config) PRESS_TO_TOGGLE);
    destruct (mode_is (recording_mode config) HOLD_TO_RECORD);
    destruct (mode_is (recording_mode config) VOICE_ACTIVITY_DETECTION);
    destruct (0 <? len (recording st))%Z;
    destruct (pressed t) as [[]|]; destruct (speech t) as [[]|];
    cbn;
    repeat match goal with
           | |- context [if ?b then _ else _] => destruct b; cbn
           end;
    try exact I; lia.
Qed.

Lemma capture_loop_silent_count (config : Configuration) (env : Env)
    (ts : list Tick) :
  forall (st : Locals) (w : World),
    (0 <= num_silent_frames st)%Z ->
    match fst (capture_loop config env ts st w) with
    | Ret (_, st') => (0 <= num_silent_frames st')%Z
    | _ => True
    end.
Proof.
  induction ts as [|t ts IH]; intros st w Hst; [exact Hst|].
  rewrite capture_loop_turn.
  destruct (flag_at env (flag_reads w)); [exact Hst|].
  cbv zeta.
  destruct (len (buffer (receive (arrived t) st)) <? frame_samples config)%Z.
  { apply IH. exact Hst. }
  destruct (flag_at env (S (flag_reads w))).
  { apply IH. exact Hst. }
  match goal with
  | |- context [mode_logic ?c ?t ?f ?s ?w0] =>
      pose proof (@mode_logic_silent_count c t f s w0 Hst) as Hm;
      destruct (mode_logic c t f s w0) as [[[st'|st']|e|] w2]
  end; cbn [fst] in Hm |- *; try exact I; [exact Hm|].
  apply IH. exact Hm.
Qed.

(** X5.  Voice activity detection by name with [silence_duration] under one
    frame (below 30 ms): the threshold [silence_duration // 30] is not
    positive.  At whatever moment of the loop, idle turns and blocks of any
    size having gone before, the first turn that finds a frame in which no
    speech is heard ends the loop with the recording as it stood: empty, if
    no frame had been cut before. *)
Theorem short_silence_duration_stops_at_once (config : Configuration)
    (env : Env) (pre : list Tick) (t : Tick) (rest : list Tick)
    (st1 : Locals) (w w1 : World) :
  recording_mode config = Name (value VOICE_ACTIVITY_DETECTION) ->
  cancel_set_at env = None ->
  (silence_duration config < 30)%Z ->
  capture_loop config env pre initial_locals w = (Ret (Turning, st1), w1) ->
  finds_frame config st1 t ->
  speech t = Ok false ->
  exists st',
    capture_loop config env (pre ++ t :: rest) initial_locals w
      = (Ret (Stopped, st'), after_reads 2 w1) /\
    recording st' = recording st1 /\
    (waits config initial_locals pre -> recording st' = []).
Proof.
  intros Hm Hn Hd Hrun Hready Hs.
  assert (Hle : (num_silence_frames config <= 0)%Z).
  { unfold num_silence_frames, frame_duration.
    assert (silence_duration config / 30 < 1)%Z
      by (apply Z.div_lt_upper_bound; lia).
    lia. }
  assert (Hcount : (0 <= num_silent_frames st1)%Z).
  { pose proof (@capture_loop_silent_count config env pre initial_locals w)
      as H.
    rewrite Hrun in H. cbn [fst] in H. apply H. cbn. lia. }
  assert (Hrec : waits config initial_locals pre -> recording st1 = []).
  { intros Hwait.
    rewrite (@waiting_turns config env pre Hn initial_locals w Hwait) in Hrun.
    inversion Hrun. reflexivity. }
  rewrite capture_loop_app, Hrun.
  rewrite ready_turn by assumption.
  rewrite voice_activity_logic by assumption.
  unfold voice_activity_branch. rewrite Hs. unfold ask, bind, ret.
  cbv beta iota zeta.
  destruct (0 <? len (recording
                        (set_buffer
                           (slice_from (frame_samples config)
                              (buffer st1 ++ arrived t)) st1)))%Z.
  - cbn [num_silent_frames set_silent set_buffer].
    replace (num_silence_frames config <=? num_silent_frames st1 + 1)%Z
      with true by (symmetry; apply Z.leb_le; lia).
    eexists. split; [reflexivity|]. split; [reflexivity|]. exact Hrec.
  - cbn [num_silent_frames set_buffer].
    replace (num_silence_frames config <=? num_silent_frames st1)%Z
      with true by (symmetry; apply Z.leb_le; lia).
    eexists. split; [reflexivity|]. split; [reflexivity|]. exact Hrec.
Qed.

Lemma short_silence_duration_stops_at_once_witness :
  exists st',
    capture_loop
      {| use_api := false;
         recording_mode := Name (value VOICE_ACTIVITY_DETECTION);
         sample_rate := 16000; silence_duration := 20;
         remove_trailing_period := true; add_trailing_space := false;
         remove_capitalization := false |}
      (studio [])
      ([idle_tick false; block 200 1; idle_tick false]
       ++ block 300 2 :: [frame_tick false true])
      initial_locals fresh_world
      = (Ret (Stopped, st'), after_reads 2 (after_reads 3 fresh_world)) /\
    recording st'
      = recording {| buffer := repeat 1%Z 200; recording := [];
                     num_silent_frames := 0 |} /\
    (waits
       {| use_api := false;
          recording_mode := Name (value VOICE_ACTIVITY_DETECTION);
          sample_rate := 16000; silence_duration := 20;
          remove_trailing_period := true; add_trailing_space := false;
          remove_capitalization := false |}
       initial_locals [idle_tick false; block 200 1; idle_tick false] ->
     recording st' = []).
Proof.
  apply short_silence_duration_stops_at_once.
  - reflexivity.
  - reflexivity.
  - reflexivity.
  - vm_compute. reflexivity.
  - vm_compute. discriminate.
  - reflexivity.
Defined.

(** ** Press to toggle by name: the key held down *)

Section KeyHeldDown.

Variable config : Configuration.
Variable env : Env.
Hypothesis by_name : recording_mode config = Name (value PRESS_TO_TOGGLE).
Hypothesis never_cancelled : cancel_set_at env = None.
Hypothesis positive : (0 < frame_samples config)%Z.

(** Something being recorded and the key down, the loop ends at the first
    turn that finds a frame. *)
Lemma key_down_stops (ts : list Tick) :
  Forall key_down ts ->
  ts <> [] ->
  forall (rest : list Tick) (st : Locals) (w : World),
    (0 < len (recording st))%Z ->
    (frame_samples config <= len (buffer st ++ samples_of ts))%Z ->
    exists st' w',
      capture_loop config env (ts ++ rest) st w = (Ret (Stopped, st'), w') /\
      recording st' = recording st.
Proof.
  induction 1 as [|t ts Hp Hts IH]; intros Hne rest st w Hrec Hlen;
    [contradiction|].
  rewrite <- app_comm_cons, capture_loop_turn.
  rewrite !(flag_at_never env _ never_cancelled). cbv zeta.
  rewrite samples_of_cons, app_assoc in Hlen.
  destruct (len (buffer (receive (arrived t) st)) <? frame_samples config)%Z
    eqn:E.
  - apply Z.ltb_lt in E. cbn [buffer receive] in E.
    destruct ts as [|t' ts'].
    + unfold samples_of in Hlen. cbn [flat_map] in Hlen.
      rewrite app_nil_r in Hlen. lia.
    + destruct (IH ltac:(discriminate) rest (receive (arrived t) st)
                  (after_reads 1 w) Hrec Hlen)
        as (st' & w' & Hl & Hr).
      exists st', w'. split; [exact Hl | exact Hr].
  - rewrite press_to_toggle_logic by assumption.
    unfold press_to_toggle_branch.
    cbn [recording set_buffer receive].
    apply Z.ltb_lt in Hrec. rewrite Hrec.
    unfold key_down in Hp. rewrite Hp. unfold ask, bind, ret.
    cbv beta iota.
    eexists _, _. split; reflexivity.
Qed.

(** Nothing being recorded yet, the first frame is taken whatever the key
    does, and the second ends the loop. *)
Lemma key_held_down (pre : list Tick) :
  Forall key_down pre ->
  pre <> [] ->
  forall (t : Tick) (rest : list Tick) (st : Locals) (w : World),
    key_down t ->
    recording st = [] ->
    (frame_samples config <= len (buffer st ++ samples_of pre))%Z ->
    (2 * frame_samples config
       <= len (buffer st ++ samples_of (pre ++ [t])))%Z ->
    exists st' w',
      capture_loop config env (pre ++ t :: rest) st w
        = (Ret (Stopped, st'), w') /\
      recording st'
        = slice_to (frame_samples config) (buffer st ++ samples_of pre).
Proof.
  induction 1 as [|p pre Hp Hpre IH]; intros Hne t rest st w Ht Hrec H1 H2;
    [contradiction|].
  rewrite <- app_comm_cons, capture_loop_turn.
  rewrite !(flag_at_never env _ never_cancelled). cbv zeta.
  rewrite samples_of_cons, app_assoc in H1.
  rewrite <- app_comm_cons, samples_of_cons, app_assoc in H2.
  rewrite samples_of_cons, app_assoc.
  destruct (len (buffer (receive (arrived p) st)) <? frame_samples config)%Z
    eqn:E.
  - apply Z.ltb_lt in E. cbn [buffer receive] in E.
    destruct pre as [|p' pre'].
    + unfold samples_of in H1. cbn [flat_map] in H1.
      rewrite app_nil_r in H1. lia.
    + exact (IH ltac:(discriminate) t rest (receive (arrived p) st)
               (after_reads 1 w) Ht Hrec H1 H2).
  - apply Z.ltb_ge in E. cbn [buffer receive] in E |- *.
    rewrite press_to_toggle_logic by assumption.
    unfold press_to_toggle_branch.
    cbn [recording set_buffer receive]. rewrite Hrec.
    change (0 <? len (@nil Z))%Z with false. unfold ret. cbv beta iota.
    pose proof (@frame_cut Z (frame_samples config) (buffer st ++ arrived p)
                  ltac:(lia) ltac:(apply Z.ltb_ge; exact E)) as Hcut.
    pose proof (frame_and_rest (frame_samples config)
                  (buffer st ++ arrived p)) as Hsplit.
    apply (f_equal (@len Z)) in Hsplit. rewrite len_app, Hcut in Hsplit.
    replace (pre ++ t :: rest) with ((pre ++ [t]) ++ rest)
      by (rewrite <- app_assoc; reflexivity).
    match goal with
    | |- context [capture_loop config env _ ?s ?w0] =>
        destruct (@key_down_stops (pre ++ [t])
                    ltac:(apply Forall_app; split;
                          [exact Hpre | constructor; [exact Ht|constructor]])
                    ltac:(destruct pre; discriminate)
                    rest s w0) as (st' & w' & Hl & Hr)
    end.
    + cbn [recording extend set_buffer receive]. rewrite Hrec.
      cbn [app]. rewrite Hcut. exact positive.
    + cbn [buffer extend set_buffer]. rewrite len_app in H2 |- *.
      lia.
    + exists st', w'. split; [exact Hl|].
      rewrite Hr. cbn [recording extend set_buffer receive]. rewrite Hrec.
      cbn [app]. symmetry. apply slice_to_app; lia.
Qed.

End KeyHeldDown.

(** X6.  Press to toggle by name: the test of the key is a test of its
    state, not of a new press.  With the key held down from the start and
    the flag never set, whatever blocks arrive and however many turns find no
    frame: once a first frame has been cut in the turns [pre] and a second is
    there at the turn [t], the loop has ended, and exactly the first frame is
    recorded. *)
Theorem press_to_toggle_key_still_down (config : Configuration) (env : Env)
    (pre : list Tick) (t : Tick) (rest : list Tick) (w : World) :
  recording_mode config = Name (value PRESS_TO_TOGGLE) ->
  cancel_set_at env = None ->
  (0 < frame_samples config)%Z ->
  Forall key_down (pre ++ [t]) ->
  (frame_samples config <= len (samples_of pre))%Z ->
  (2 * frame_samples config <= len (samples_of (pre ++ [t])))%Z ->
  exists st' w',
    capture_loop config env (pre ++ t :: rest) initial_locals w
      = (Ret (Stopped, st'), w') /\
    recording st' = slice_to (frame_samples config) (samples_of pre) /\
    len (recording st') = frame_samples config.
Proof.
  intros Hm Hn Hpos Hkeys H1 H2.
  apply Forall_app in Hkeys. destruct Hkeys as [Hpre Ht].
  inversion Ht as [|? ? Hkt _]; subst.
  assert (Hne : pre <> []).
  { intros ->. unfold samples_of, len in H1. cbn in H1. lia. }
  destruct (@key_held_down config env Hm Hn Hpos pre Hpre Hne t rest
              initial_locals w Hkt eq_refl H1 H2)
    as (st' & w' & Hl & Hr).
  exists st', w'. split; [exact Hl|]. cbn [buffer initial_locals app] in Hr.
  split; [exact Hr|]. rewrite Hr.
  apply frame_cut; [lia|]. apply Z.ltb_ge. exact H1.
Qed.

Lemma press_to_toggle_key_still_down_witness :
  exists st' w',
    capture_loop (named PRESS_TO_TOGGLE) (studio [])
      ([idle_tick true; frame_tick true false; idle_tick true]
       ++ frame_tick true false :: [frame_tick false false])
      initial_locals fresh_world
      = (Ret (Stopped, st'), w') /\
    recording st'
      = slice_to (frame_samples (named PRESS_TO_TOGGLE))
          (samples_of [idle_tick true; frame_tick true false;
                       idle_tick true]) /\
    len (recording st') = frame_samples (named PRESS_TO_TOGGLE).
Proof.
  apply press_to_toggle_key_still_down.
  - reflexivity.
  - reflexivity.
  - reflexivity.
  - repeat constructor.
  - vm_compute. discriminate.
  - vm_compute. discriminate.
Defined.

(* ================================================================== *)
(** * Building a configuration: what comes out                         *)
(* ================================================================== *)

Lemma RecordingMode_of_value (m : RecordingMode) :
  RecordingMode_of (value m) = Ok m.
Proof. destruct m; reflexivity. Qed.

Lemma RecordingMode_of_inv (s : string) (m : RecordingMode) :
  RecordingMode_of s = Ok m -> s = value m.
Proof.
  unfold RecordingMode_of.
  destruct (String.eqb_spec s "voice_activity_detection") as [->|_];
    [intros H; inversion H; reflexivity|].
  destruct (String.eqb_spec s "press_to_toggle") as [->|_];
    [intros H; inversion H; reflexivity|].
  destruct (String.eqb_spec s "hold_to_record") as [->|_];
    [intros H; inversion H; reflexivity|].
  destruct (String.eqb_spec s "continuous") as [->|_];
    [intros H; inversion H; reflexivity|].
  discriminate.
Qed.

Lemma value_is_choice (m : RecordingMode) :
  In (value m) recording_mode_choices.
Proof. destruct m; simpl; auto. Qed.

Lemma RecordingMode_of_other (s : string) :
  ~ In s recording_mode_choices ->
  RecordingMode_of s = Fails "ValueError"%string.
Proof.
  intros H. destruct (RecordingMode_of s) as [m|e] eqn:E.
  - exfalso. apply H. rewrite (RecordingMode_of_inv _ E).
    apply value_is_choice.
  - revert E. unfold RecordingMode_of.
    repeat match goal with
           | |- context [if ?b then _ else _] => destruct b
           end; intros E; inversion E; reflexivity.
Qed.

(** X7.  The strings that [--recording-mode] offers and the members of
    [RecordingMode] correspond one to one: [RecordingMode(m.value)] is [m],
    a string that [RecordingMode] accepts is the value of the member it
    gives and is one of the choices, and any other string raises
    [ValueError]. *)
Theorem recording_mode_round_trip :
  (forall m, RecordingMode_of (value m) = Ok m) /\
  (forall s m, RecordingMode_of s = Ok m ->
               s = value m /\ In s recording_mode_choices) /\
  (forall s, ~ In s recording_mode_choices ->
             RecordingMode_of s = Fails "ValueError"%string).
Proof.
  split; [exact RecordingMode_of_value|]. split.
  - intros s m H. pose proof (RecordingMode_of_inv _ H) as ->.
    split; [reflexivity | apply value_is_choice].
  - exact RecordingMode_of_other.
Qed.

Lemma recording_mode_round_trip_witness :
  ("hold_to_record"%string = value HOLD_TO_RECORD /\
   In "hold_to_record"%string recording_mode_choices) /\
  RecordingMode_of "toggle"%string = Fails "ValueError"%string.
Proof.
  split.
  - apply (proj1 (proj2 recording_mode_round_trip)
             "hold_to_record"%string HOLD_TO_RECORD).
    reflexivity.
  - apply (proj2 (proj2 recording_mode_round_trip) "toggle"%string).
    simpl. intros [H|[H|[H|[H|[]]]]]; discriminate H.
Defined.

(** X8.  [Configuration.from_dict] either raises [TypeError] (a nested
    options dictionary has a key that is no parameter), or raises
    [ValueError] (the recording mode is none of the four names), or returns
    a configuration that passes [validate_configuration], holds the member
    named by the dictionary (voice activity detection when the key is
    absent) and, field by field, the entry of the dictionary or else the
    default of the constructor. *)
Theorem from_dict_outcomes (d : ConfigDict) :
  match from_dict d with
  | Ok c =>
      validate_configuration c = true /\
      (exists m, recording_mode c = Member m /\
                 value m = get (d_recording_mode d)
                             "voice_activity_detection"%string) /\
      use_api c = get (d_use_api d) false /\
      sample_rate c = get (d_sample_rate d) 16000%Z /\
      silence_duration c = get (d_silence_duration d) 900%Z /\
      remove_trailing_period c = get (d_remove_trailing_period d) true /\
      add_trailing_space c = get (d_add_trailing_space d) false /\
      remove_capitalization c = get (d_remove_capitalization d) false
  | Fails e =>
      (e = "TypeError"%string /\
       (accepts api_option_names (get (d_api_options d) []) = false \/
        accepts local_model_option_names
          (get (d_local_model_options d) []) = false))
      \/ (e = "ValueError"%string /\
          ~ In (get (d_recording_mode d) "voice_activity_detection"%string)
               recording_mode_choices)
  end.
Proof.
  unfold from_dict.
  destruct (accepts api_option_names (get (d_api_options d) [])) eqn:Ha;
    cbn [negb]; [|left; split; [reflexivity | left; reflexivity]].
  destruct (accepts local_model_option_names
              (get (d_local_model_options d) [])) eqn:Hl;
    cbn [negb]; [|left; split; [reflexivity | right; reflexivity]].
  destruct (RecordingMode_of
              (get (d_recording_mode d) "voice_activity_detection"%string))
    as [m|e] eqn:Hm.
  - unfold Configuration_init, validate_configuration. cbn.
    split; [reflexivity|]. split.
    + exists m. split; [reflexivity|].
      symmetry. exact (RecordingMode_of_inv _ Hm).
    + repeat split.
  - right.
    assert (Hnot : ~ In (get (d_recording_mode d)
                           "voice_activity_detection"%string)
                        recording_mode_choices).
    { intros Hin.
      assert (exists m, get (d_recording_mode d)
                          "voice_activity_detection"%string = value m)
        as [m Em].
      { unfold recording_mode_choices in Hin. apply in_map_iff in Hin.
        destruct Hin as (m & Em & _). exists m. symmetry. exact Em. }
      rewrite Em, RecordingMode_of_value in Hm. discriminate Hm. }
    split; [|exact Hnot].
    rewrite (RecordingMode_of_other Hnot) in Hm. inversion Hm. reflexivity.
Qed.

(** The empty dictionary gives the configuration of the defaults. *)
Example from_dict_of_nothing : from_dict empty_dict = Ok default_configuration.
Proof. reflexivity. Qed.

(** X9.  Whatever [Configuration.__init__] returns holds a member of the
    enumeration, and a service run on it records nothing: whatever arrives
    and whatever the backends would answer, [record_and_transcribe] returns
    the empty string or is still capturing, writes no audio file and calls
    no backend. *)
Theorem constructed_configuration_transcribes_nothing
    (api : bool) (mode : ModeValue) (rate silence : Z)
    (period space lowercase : bool) (config : Configuration)
    (env : Env) (w : World) :
  Configuration_init api mode rate silence period space lowercase
    = Ok config ->
  (fst (record_and_transcribe config env w) = Ret [] \/
   fst (record_and_transcribe config env w) = Spin) /\
  files (snd (record_and_transcribe config env w)) = files w /\
  backend_calls (snd (record_and_transcribe config env w))
    = backend_calls w.
Proof.
  unfold Configuration_init. intros H.
  match type of H with
  | (if validate_configuration ?c then _ else _) = _ =>
      destruct (validate_configuration c) eqn:Hv; [|discriminate H]
  end.
  inversion H. subst config.
  exact (validated_configuration_transcribes_nothing _ env w Hv).
Qed.

Lemma constructed_configuration_transcribes_nothing_witness :
  (fst (record_and_transcribe (member PRESS_TO_TOGGLE)
          (studio (repeat (frame_tick false false) 3
                   ++ [frame_tick true false])) fresh_world) = Ret [] \/
   fst (record_and_transcribe (member PRESS_TO_TOGGLE)
          (studio (repeat (frame_tick false false) 3
                   ++ [frame_tick true false])) fresh_world) = Spin) /\
  files (snd (record_and_transcribe (member PRESS_TO_TOGGLE)
          (studio (repeat (frame_tick false false) 3
                   ++ [frame_tick true false])) fresh_world))
    = files fresh_world /\
  backend_calls (snd (record_and_transcribe (member PRESS_TO_TOGGLE)
          (studio (repeat (frame_tick false false) 3
                   ++ [frame_tick true false])) fresh_world))
    = backend_calls fresh_world.
Proof.
  apply (@constructed_configuration_transcribes_nothing
           false (Member PRESS_TO_TOGGLE) 16000 900 true false false
           (member PRESS_TO_TOGGLE)
           (studio (repeat (frame_tick false false) 3
                    ++ [frame_tick true false]))
           fresh_world).
  reflexivity.
Defined.

(* ================================================================== *)
(** * The backends                                                     *)
(* ================================================================== *)

(** [transcribe] on a path that is not empty, step by step. *)
Lemma transcribe_cases (config : Configuration) (env : Env)
    (path : str) (w : World) :
  truthy path = true ->
  transcribe config env path w =
  let w0 := queued transcribing_event w in
  if use_api config
  then match api_transcribe env path with
       | Ok text =>
           (Ret (post_process_transcription config text),
            called RemoteAPI path w0)
       | Fails e => (Raise e, called RemoteAPI path w0)
       end
  else
    let answer w1 :=
      match local_transcribe env path with
      | Ok segments =>
          (Ret (post_process_transcription config (concat segments)),
           called LocalModel path w1)
      | Fails e => (Raise e, called LocalModel path w1)
      end in
    if local_model w then answer w0
    else match load_model env, load_model_cpu env with
         | Some _, Some e => (Raise e, w0)
         | _, _ => answer (loaded w0)
         end.
Proof.
  intros Hp. unfold transcribe, transcribe_api, transcribe_local,
    create_local_model, try_except.
  rewrite Hp. cbn [negb]. cbv zeta.
  destruct (use_api config).
  - step_monad. cbn. destruct (api_transcribe env path); reflexivity.
  - step_monad. cbn.
    destruct (local_model w) eqn:Hm.
    + cbn. destruct (local_transcribe env path); reflexivity.
    + destruct (load_model env) as [e1|]; cbn.
      * destruct (load_model_cpu env) as [e2|]; cbn; [reflexivity|].
        destruct (local_transcribe env path); reflexivity.
      * destruct (local_transcribe env path); reflexivity.
Qed.

(** X10.  The local model is loaded on first use, and a failure to load it
    on the chosen device is not fatal: if the load on the CPU succeeds,
    [transcribe] goes on, calls the local backend once on the path it was
    given and returns the post-processed concatenation of the segments; the
    model is then loaded. *)
Theorem local_model_falls_back_to_cpu (config : Configuration) (env : Env)
    (path : str) (segments : list str) (e : exn) (w : World) :
  truthy path = true ->
  use_api config = false ->
  local_model w = false ->
  load_model env = Some e ->
  load_model_cpu env = None ->
  local_transcribe env path = Ok segments ->
  transcribe config env path w =
  (Ret (post_process_transcription config (concat segments)),
   called LocalModel path (loaded (queued transcribing_event w))) /\
  local_model
    (called LocalModel path (loaded (queued transcribing_event w))) = true.
Proof.
  intros Hp Hu Hm Hl Hc Hs.
  rewrite transcribe_cases by exact Hp. cbv zeta.
  rewrite Hu, Hm, Hl, Hc, Hs. split; reflexivity.
Qed.

Lemma local_model_falls_back_to_cpu_witness :
  transcribe default_configuration
    {| cancel_set_at := None; open_stream := None; ticks := [];
       close_stream := None; temp_file := Ok (lit "/tmp/t");
       write_wave := None;
       load_model := Some "RuntimeError"%string;
       load_model_cpu := None;
       local_transcribe := fun _ => Ok [lit " Hello"; lit " there."];
       api_transcribe := fun _ => Fails "APIConnectionError"%string |}
    (lit "/tmp/t.wav") fresh_world
  = (Ret (lit "Hello there"),
     called LocalModel (lit "/tmp/t.wav")
       (loaded (queued transcribing_event fresh_world))) /\
  local_model
    (called LocalModel (lit "/tmp/t.wav")
       (loaded (queued transcribing_event fresh_world))) = true.
Proof.
  apply (@local_model_falls_back_to_cpu default_configuration _
           (lit "/tmp/t.wav") [lit " Hello"; lit " there."]
           "RuntimeError"%string fresh_world); reflexivity.
Defined.

(** X11.  Once the model is loaded it is never loaded again: with
    [self.local_model] set, what [transcribe] does with the local backend is
    the same in two environments that differ only in whether loading a model
    would succeed. *)
Theorem loaded_model_is_not_reloaded (config : Configuration)
    (env env' : Env) (path : str) (w : World) :
  use_api config = false ->
  local_model w = true ->
  local_transcribe env' path = local_transcribe env path ->
  transcribe config env' path w = transcribe config env path w.
Proof.
  intros Hu Hm Hs. destruct path as [|c r]; [reflexivity|].
  rewrite !transcribe_cases by reflexivity. cbv zeta.
  rewrite Hu, Hm, Hs. reflexivity.
Qed.

Lemma loaded_model_is_not_reloaded_witness :
  transcribe default_configuration
    {| cancel_set_at := None; open_stream := None; ticks := [];
       close_stream := None; temp_file := Ok (lit "/tmp/t");
       write_wave := None;
       load_model := Some "RuntimeError"%string;
       load_model_cpu := Some "RuntimeError"%string;
       local_transcribe := fun _ => Ok [lit " test"; lit " transcription."];
       api_transcribe := fun _ => Ok (lit "test transcription.") |}
    (lit "/tmp/t.wav") (loaded fresh_world)
  = transcribe default_configuration (studio []) (lit "/tmp/t.wav")
      (loaded fresh_world).
Proof.
  apply loaded_model_is_not_reloaded; reflexivity.
Defined.

Lemma transcribe_calls_one_backend_aux (config : Configuration) (env : Env)
    (path : str) (w : World) :
  truthy path = true ->
  status_queue (snd (transcribe config env path w))
    = status_queue w ++ [transcribing_event] /\
  files (snd (transcribe config env path w)) = files w.
Proof.
  intros Hp. rewrite transcribe_cases by exact Hp. cbv zeta.
  destruct (use_api config).
  - destruct (api_transcribe env path); split; reflexivity.
  - destruct (local_model w).
    + destruct (local_transcribe env path); split; reflexivity.
    + destruct (load_model env) as [e1|]; [destruct (load_model_cpu env)|];
        try (split; reflexivity);
        destruct (local_transcribe env path); split; reflexivity.
Qed.

(** X12.  On a path that is not empty [transcribe] queues [transcribing]
    exactly once and writes no file; it calls at most one backend, the one
    [use_api] selects, at most once, on the path it was given, and never the
    other one.  (The local backend is not called when the model cannot be
    loaded.  A call to the remote backend is noted on entering
    [transcribe_api]; when building the client or opening the file fails, the
    request is not sent, which the bound stated here allows.) *)
Theorem transcribe_calls_one_backend (config : Configuration) (env : Env)
    (path : str) (w : World) :
  truthy path = true ->
  status_queue (snd (transcribe config env path w))
    = status_queue w ++ [transcribing_event] /\
  files (snd (transcribe config env path w)) = files w /\
  (backend_calls (snd (transcribe config env path w)) = backend_calls w \/
   backend_calls (snd (transcribe config env path w))
     = backend_calls w
       ++ [(if use_api config then RemoteAPI else LocalModel, path)]).
Proof.
  intros Hp. rewrite transcribe_cases by exact Hp. cbv zeta.
  destruct (use_api config).
  - destruct (api_transcribe env path); repeat split; right; reflexivity.
  - destruct (local_model w).
    + destruct (local_transcribe env path); repeat split; right; reflexivity.
    + destruct (load_model env) as [e1|]; [destruct (load_model_cpu env)|];
        try (repeat split; left; reflexivity);
        destruct (local_transcribe env path); repeat split; right;
        reflexivity.
Qed.

Lemma transcribe_calls_one_backend_witness :
  status_queue (snd (transcribe default_configuration (studio [])
                       (lit "/tmp/t.wav") fresh_world))
    = status_queue fresh_world ++ [transcribing_event] /\
  files (snd (transcribe default_configuration (studio [])
                (lit "/tmp/t.wav") fresh_world)) = files fresh_world /\
  (backend_calls (snd (transcribe default_configuration (studio [])
                         (lit "/tmp/t.wav") fresh_world))
     = backend_calls fresh_world \/
   backend_calls (snd (transcribe default_configuration (studio [])
                         (lit "/tmp/t.wav") fresh_world))
     = backend_calls fresh_world
       ++ [(if use_api default_configuration then RemoteAPI else LocalModel,
            lit "/tmp/t.wav")]).
Proof.
  apply transcribe_calls_one_backend. reflexivity.
Defined.

(* ================================================================== *)
(** * A whole session                                                  *)
(* ================================================================== *)

Lemma LoopExit_eq_Turning (x : LoopExit) : x = Turning \/ x <> Turning.
Proof. destruct x; [right|right|left]; (reflexivity || discriminate). Qed.

Lemma record_still_capturing (config : Configuration) (env : Env)
    (st : Locals) (w w1 : World) :
  open_stream env = None ->
  capture_loop config env (ticks env) initial_locals w
    = (Ret (Turning, st), w1) ->
  record config env w = (Spin, w1).
Proof.
  intros Ho Hl. rewrite record_cases, record_body_cases, Ho, Hl. reflexivity.
Qed.

Lemma record_after_loop (config : Configuration) (env : Env)
    (x : LoopExit) (st : Locals) (w w1 : World) :
  open_stream env = None ->
  capture_loop config env (ticks env) initial_locals w = (Ret (x, st), w1) ->
  x <> Turning ->
  record config env w =
  match after_loop config env st w1 with
  | (Raise _, w2) => (Ret [], queued error_event w2)
  | r => r
  end.
Proof.
  intros Ho Hl Hx. rewrite record_cases, record_body_cases, Ho, Hl.
  destruct x; try reflexivity. contradiction.
Qed.

(** What [record] leaves behind, in three cases: nothing but one event and
    the empty string; a loop still turning; one file and its path. *)
Lemma record_outcomes (config : Configuration) (env : Env) (w : World) :
  (exists ev w1,
      record config env w = (Ret [], w1) /\
      (ev = cancel_event \/ ev = error_event) /\
      status_queue w1 = status_queue w ++ [ev] /\
      files w1 = files w /\ backend_calls w1 = backend_calls w)
  \/ (exists w1,
        record config env w = (Spin, w1) /\
        status_queue w1 = status_queue w /\
        files w1 = files w /\ backend_calls w1 = backend_calls w)
  \/ (exists st stem w1,
        record config env w = (Ret (stem ++ lit ".wav"), w1) /\
        status_queue w1 = status_queue w /\
        files w1 = files w ++ [artifact config stem (recording st)] /\
        backend_calls w1 = backend_calls w).
Proof.
  destruct (open_stream env) as [e|] eqn:Ho.
  { left. exists error_event, (queued error_event w).
    split; [exact (open_failure_is_caught config env w Ho)|].
    split; [right; reflexivity|]. repeat split. }
  destruct (capture_loop_world config env (ticks env) initial_locals w)
    as [(Q & F & B & _) Hs].
  destruct (capture_loop config env (ticks env) initial_locals w)
    as [[[x st]|e|] w1] eqn:Hl; cbn [fst snd] in Q, F, B, Hs.
  - destruct (LoopExit_eq_Turning x) as [->|Hx].
    { right. left. exists w1.
      split; [exact (record_still_capturing config env w Ho Hl)|].
      repeat split; assumption. }
    pose proof (record_after_loop config env w Ho Hl Hx) as Hr.
    destruct (after_loop_cases config env st w1)
      as [(R & _ & W) | [(e & R & (Q' & F' & B' & _))
                        | (stem & _ & _ & R & W)]];
      destruct (after_loop config env st w1) as [o w2];
      cbn [fst snd] in R; subst o.
    + left. exists cancel_event, w2. split; [exact Hr|].
      split; [left; reflexivity|]. cbn [snd] in W. subst w2. cbn.
      rewrite Q, F, B. repeat split.
    + left. exists error_event, (queued error_event w2).
      split; [exact Hr|]. split; [right; reflexivity|].
      cbn [snd] in Q', F', B'. cbn. rewrite Q', F', B', Q, F, B.
      repeat split.
    + right. right. exists st, stem, w2. split; [exact Hr|].
      cbn [snd] in W. subst w2. cbn. rewrite Q, F, B. repeat split.
  - left. exists error_event, (queued error_event w1).
    split; [exact (loop_failure_is_caught config env w Ho Hl)|].
    split; [right; reflexivity|]. cbn. rewrite Q, F, B. repeat split.
  - exfalso. apply Hs. reflexivity.
Qed.

(** X13.  A session queues at most one status event.  Either nothing is
    queued and no backend is called; or [cancel] alone, or [error] alone, and
    then no file is written and no backend called; or [transcribing] alone,
    and then exactly one audio file has been written. *)
Theorem session_queues_at_most_one_event (config : Configuration)
    (env : Env) (w : World) :
  let w' := snd (record_and_transcribe config env w) in
  (status_queue w' = status_queue w /\ backend_calls w' = backend_calls w)
  \/ (status_queue w' = status_queue w ++ [cancel_event] /\
      files w' = files w /\ backend_calls w' = backend_calls w)
  \/ (status_queue w' = status_queue w ++ [error_event] /\
      files w' = files w /\ backend_calls w' = backend_calls w)
  \/ (status_queue w' = status_queue w ++ [transcribing_event] /\
      exists a, files w' = files w ++ [a]).
Proof.
  cbv zeta.
  destruct (record_outcomes config env w)
    as [(ev & w1 & Hr & Hev & Q & F & B)
       | [(w1 & Hr & Q & F & B) | (st & stem & w1 & Hr & Q & F & B)]].
  - rewrite (orchestration_of_nothing config env w Hr). cbn.
    destruct Hev as [-> | ->].
    + right. left. auto.
    + right. right. left. auto.
  - assert (E : record_and_transcribe config env w = (Spin, w1))
      by (unfold record_and_transcribe; unfold bind at 1; rewrite Hr;
          reflexivity).
    rewrite E. left. cbn. auto.
  - assert (Hp : truthy (stem ++ lit ".wav") = true)
      by (destruct stem; reflexivity).
    assert (E : record_and_transcribe config env w =
                if flag_at env (flag_reads w1)
                then (Ret [], after_reads 1 w1)
                else transcribe config env (stem ++ lit ".wav")
                       (after_reads 1 w1))
      by (unfold record_and_transcribe; unfold bind at 1; rewrite Hr;
          unfold bind at 1; unfold cancel_flag;
          destruct (flag_at env (flag_reads w1)); reflexivity).
    rewrite E. destruct (flag_at env (flag_reads w1)).
    + left. cbn. auto.
    + right. right. right.
      destruct (transcribe_calls_one_backend_aux config env
                  (stem ++ lit ".wav") (after_reads 1 w1) Hp)
        as (Hq & Hf).
      rewrite Hq, Hf. cbn. rewrite Q, F. split; [reflexivity|].
      eexists. reflexivity.
Qed.

(** X14.  A session that nothing disturbs: the stream opens and closes, the
    loop is left by [break], the flag is not set at either test, the file is
    written, and the remote backend answers [text].  Then
    [record_and_transcribe] returns [text] post-processed; on the way it has
    queued [transcribing] alone, written one file holding what was recorded,
    and called the remote backend once, on that file. *)
Theorem session_returns_processed_text (config : Configuration) (env : Env)
    (st : Locals) (stem text : str) (w w1 : World) :
  open_stream env = None ->
  close_stream env = None ->
  temp_file env = Ok stem ->
  write_wave env = None ->
  capture_loop config env (ticks env) initial_locals w
    = (Ret (Stopped, st), w1) ->
  flag_at env (S (flag_reads w1)) = false ->
  use_api config = true ->
  api_transcribe env (stem ++ lit ".wav") = Ok text ->
  exists w',
    record_and_transcribe config env w
      = (Ret (post_process_transcription config text), w') /\
    status_queue w' = status_queue w ++ [transcribing_event] /\
    files w' = files w ++ [artifact config stem (recording st)] /\
    backend_calls w'
      = backend_calls w ++ [(RemoteAPI, stem ++ lit ".wav")].
Proof.
  intros Ho Hc Ht Hw Hl Hf Hu Ha.
  destruct (capture_loop_world config env (ticks env) initial_locals w)
    as [(Q & F & B & _) _].
  rewrite Hl in Q, F, B. cbn [snd] in Q, F, B.
  rewrite (uncancelled_session config env w Ho Hc Ht Hw Hl Hf).
  rewrite transcribe_cases by (destruct stem; reflexivity).
  cbv zeta. rewrite Hu, Ha.
  eexists. split; [reflexivity|]. cbn. rewrite Q, F, B. repeat split.
Qed.

Lemma session_returns_processed_text_witness :
  exists w',
    record_and_transcribe
      {| use_api := true;
         recording_mode := Name (value PRESS_TO_TOGGLE);
         sample_rate := 16000; silence_duration := 900;
         remove_trailing_period := true; add_trailing_space := false;
         remove_capitalization := false |}
      (studio (repeat (frame_tick false false) 10 ++ [frame_tick true false]))
      fresh_world
      = (Ret (post_process_transcription
                {| use_api := true;
                   recording_mode := Name (value PRESS_TO_TOGGLE);
                   sample_rate := 16000; silence_duration := 900;
                   remove_trailing_period := true;
                   add_trailing_space := false;
                   remove_capitalization := false |}
                (lit "test transcription.")), w') /\
    status_queue w' = status_queue fresh_world ++ [transcribing_event] /\
    files w'
      = files fresh_world
        ++ [artifact
              {| use_api := true;
                 recording_mode := Name (value PRESS_TO_TOGGLE);
                 sample_rate := 16000; silence_duration := 900;
                 remove_trailing_period := true;
                 add_trailing_space := false;
                 remove_capitalization := false |}
              (lit "/tmp/tmpk3v9")
              (recording
                 (extend (samples_of (repeat (frame_tick false false) 10))
                    initial_locals))] /\
    backend_calls w'
      = backend_calls fresh_world
        ++ [(RemoteAPI, lit "/tmp/tmpk3v9" ++ lit ".wav")].
Proof.
  apply (@session_returns_processed_text _
           (studio (repeat (frame_tick false false) 10
                    ++ [frame_tick true false]))
           (extend (samples_of (repeat (frame_tick false false) 10))
              initial_locals)
           (lit "/tmp/tmpk3v9") (lit "test transcription.")
           fresh_world (after_reads 22 fresh_world)).
  - reflexivity.
  - reflexivity.
  - reflexivity.
  - reflexivity.
  - vm_compute. reflexivity.
  - reflexivity.
  - reflexivity.
  - reflexivity.
Defined.

(* ================================================================== *)
(** * The shortcut of the command-line application                     *)
(* ================================================================== *)

(** A keyword that names no parameter makes the call raise, whatever else
    is passed. *)
Lemma unexpected_keyword (params : list string) (n : nat)
    (keywords : list string) (k : string) :
  In k keywords -> mem k params = false ->
  bind_arguments params n keywords = Some "TypeError"%string.
Proof.
  intros Hin Hk. unfold bind_arguments.
  assert (H : existsb (fun k => negb (mem k params)) keywords = true).
  { apply existsb_exists. exists k. split; [exact Hin|].
    rewrite Hk. reflexivity. }
  rewrite H. rewrite !orb_true_r. reflexivity.
Qed.

(** Called with the status queue by position and [cancel_flag] by keyword,
    and nothing else, the method is entered. *)
Example plain_call_binds :
  bind_arguments record_and_transcribe_params 1 ["cancel_flag"%string] = None.
Proof. reflexivity. Qed.

(** X15.  [on_shortcut] of [run-cli.py] starts the thread with the keywords
    [config] and [local_model], which [record_and_transcribe] does not take:
    the call raises [TypeError] inside the thread before the method is
    entered.  Whatever the configuration and the environment, [on_shortcut]
    then returns with [result] still [None]: nothing is typed, the flag is
    never read, no file is written, no backend is called; the queue holds
    [recording], and [cancel] if the status window is shown and still
    alive; the beep is played if [noise_on_completion] is set. *)
Theorem on_shortcut_types_nothing (config : CliConfiguration) (env : Env)
    (window_alive : bool) (cw : CliWorld) :
  exists w',
    on_shortcut config env window_alive cw =
    (Ret tt,
     {| service_world := w';
        keyboard := keyboard cw;
        beeps := if noise_on_completion config
                 then S (beeps cw) else beeps cw |}) /\
    status_queue w' =
      ("recording"%string, "Recording..."%string)
      :: (if negb (hide_status_window config) && window_alive
          then [cancel_event] else []) /\
    flag_reads w' = flag_reads (service_world cw) /\
    files w' = files (service_world cw) /\
    backend_calls w' = backend_calls (service_world cw).
Proof.
  unfold on_shortcut, run_and_join.
  rewrite (@unexpected_keyword record_and_transcribe_params 1
             ["cancel_flag"; "config"; "local_model"]%string
             "config"%string)
    by (simpl; auto).
  cbv zeta. unfold ret. rewrite app_nil_r.
  eexists. split; [reflexivity|].
  destruct (negb (hide_status_window config) && window_alive);
    repeat split.
Qed.

(* ================================================================== *)
(** * Splitting, joining and capitalizing                              *)
(* ================================================================== *)

Section SplitJoin.

Variable sep : ascii.

Lemma split_on_not_nil (s : str) : split_on sep s <> [].
Proof.
  induction s as [|c r IH]; simpl; [discriminate|].
  destruct (Ascii.eqb c sep); [discriminate|].
  destruct (split_on sep r); discriminate.
Qed.

Lemma join_cons (piece : str) (rest : list str) :
  rest <> [] -> join sep (piece :: rest) = piece ++ sep :: join sep rest.
Proof. destruct rest; [contradiction | reflexivity]. Qed.

Lemma join_split (s : str) : join sep (split_on sep s) = s.
Proof.
  induction s as [|c r IH]; [reflexivity|]. cbn [split_on].
  destruct (Ascii.eqb_spec c sep) as [->|Hc].
  - rewrite join_cons by apply split_on_not_nil. rewrite IH. reflexivity.
  - pose proof (split_on_not_nil r) as Hn.
    destruct (split_on sep r) as [|piece pieces]; [contradiction|].
    destruct pieces as [|p ps].
    + cbn in IH |- *. rewrite IH. reflexivity.
    + change (join sep ((c :: piece) :: p :: ps))
        with (c :: (piece ++ sep :: join sep (p :: ps))).
      change (join sep (piece :: p :: ps))
        with (piece ++ sep :: join sep (p :: ps)) in IH.
      rewrite IH. reflexivity.
Qed.

Lemma split_pieces_free (s : str) :
  Forall (fun piece => free_of sep piece = true) (split_on sep s).
Proof.
  induction s as [|c r IH]; cbn [split_on].
  - constructor; [reflexivity | constructor].
  - destruct (Ascii.eqb c sep) eqn:E.
    + constructor; [reflexivity | exact IH].
    + destruct (split_on sep r) as [|piece pieces].
      * constructor; [|constructor]. cbn. rewrite E. reflexivity.
      * inversion IH as [|? ? Hp Hps]. subst.
        constructor; [|exact Hps]. cbn. rewrite E. exact Hp.
Qed.

Lemma split_free (piece : str) :
  free_of sep piece = true -> split_on sep piece = [piece].
Proof.
  induction piece as [|c r IH]; [reflexivity|]. cbn.
  destruct (Ascii.eqb c sep); [discriminate|]. cbn.
  intros H. rewrite (IH H). reflexivity.
Qed.

Lemma split_app_free (piece rest : str) :
  free_of sep piece = true ->
  split_on sep (piece ++ sep :: rest) = piece :: split_on sep rest.
Proof.
  induction piece as [|c r IH]; cbn.
  - rewrite Ascii.eqb_refl. reflexivity.
  - destruct (Ascii.eqb c sep); [discriminate|]. cbn.
    intros H. rewrite (IH H). reflexivity.
Qed.

Lemma split_join (pieces : list str) :
  pieces <> [] ->
  Forall (fun piece => free_of sep piece = true) pieces ->
  split_on sep (join sep pieces) = pieces.
Proof.
  induction pieces as [|piece rest IH]; [contradiction|].
  intros _ H. inversion H as [|? ? Hp Hr]. subst.
  destruct rest as [|p ps].
  - apply split_free. exact Hp.
  - rewrite join_cons by discriminate.
    rewrite split_app_free by exact Hp.
    rewrite IH; [reflexivity | discriminate | exact Hr].
Qed.

End SplitJoin.

Lemma lower_char_upper (c : ascii) :
  is_ascii7 c = true -> lower_char (upper_char c) = lower_char c.
Proof. destruct c as [[] [] [] [] [] [] [] []]; (reflexivity || discriminate). Qed.

Lemma upper_char_idem (c : ascii) : upper_char (upper_char c) = upper_char c.
Proof. destruct c as [[] [] [] [] [] [] [] []]; reflexivity. Qed.

Lemma upper_char_plus (c : ascii) :
  Ascii.eqb (upper_char c) plus = Ascii.eqb c plus.
Proof. destruct c as [[] [] [] [] [] [] [] []]; reflexivity. Qed.

Lemma lower_char_plus (c : ascii) :
  Ascii.eqb (lower_char c) plus = Ascii.eqb c plus.
Proof. destruct c as [[] [] [] [] [] [] [] []]; reflexivity. Qed.

Lemma lower_capitalize (piece : str) :
  forallb is_ascii7 piece = true -> lower (capitalize piece) = lower piece.
Proof.
  destruct piece as [|c r]; [reflexivity|]. cbn [forallb capitalize].
  intros H. apply andb_true_iff in H. destruct H as [Hc _].
  unfold lower. cbn [map]. rewrite map_map. f_equal.
  - apply lower_char_upper. exact Hc.
  - apply map_ext. exact lower_char_idem.
Qed.

Lemma capitalize_idem (piece : str) :
  capitalize (capitalize piece) = capitalize piece.
Proof.
  destruct piece as [|c r]; [reflexivity|]. cbn [capitalize].
  rewrite upper_char_idem, lower_idem. reflexivity.
Qed.

Lemma capitalize_free (piece : str) :
  free_of plus (capitalize piece) = free_of plus piece.
Proof.
  destruct piece as [|c r]; [reflexivity|]. cbn [capitalize free_of forallb].
  rewrite upper_char_plus. f_equal.
  unfold lower. induction r as [|d r IH]; [reflexivity|]. cbn [map forallb].
  rewrite lower_char_plus, IH. reflexivity.
Qed.

Lemma lower_join (pieces : list str) :
  lower (join plus pieces) = join plus (map lower pieces).
Proof.
  induction pieces as [|piece rest IH]; [reflexivity|].
  destruct rest as [|p ps]; [reflexivity|].
  change (join plus (piece :: p :: ps))
    with (piece ++ plus :: join plus (p :: ps)).
  change (join plus (map lower (piece :: p :: ps)))
    with (lower piece ++ plus :: join plus (map lower (p :: ps))).
  rewrite <- IH. unfold lower. rewrite map_app. reflexivity.
Qed.

Lemma split_pieces_ascii (s : str) :
  forallb is_ascii7 s = true ->
  Forall (fun piece => forallb is_ascii7 piece = true) (split_on plus s).
Proof.
  induction s as [|c r IH]; cbn [split_on forallb].
  - intros _. constructor; [reflexivity | constructor].
  - intros H. apply andb_true_iff in H. destruct H as [Hc Hr].
    specialize (IH Hr).
    destruct (Ascii.eqb c plus).
    + constructor; [reflexivity | exact IH].
    + destruct (split_on plus r) as [|piece pieces].
      * constructor; [|constructor]. cbn [forallb]. rewrite Hc. reflexivity.
      * inversion IH as [|? ? Hp Hps]. subst.
        constructor; [|exact Hps]. cbn [forallb]. rewrite Hc. exact Hp.
Qed.

(** X16.  On a key string of plain ASCII, [format_keystrokes] changes
    nothing but the case of letters: its result and the string are equal
    once both are put in lower case (so the length and the place of every
    [+] are kept), and formatting a second time changes nothing. *)
Theorem format_keystrokes_changes_case_only (key_string : str) :
  forallb is_ascii7 key_string = true ->
  lower (format_keystrokes key_string) = lower key_string /\
  format_keystrokes (format_keystrokes key_string)
    = format_keystrokes key_string.
Proof.
  intros Ha. unfold format_keystrokes. split.
  - rewrite lower_join, map_map.
    rewrite (map_ext_in _ lower).
    + rewrite <- lower_join, join_split. reflexivity.
    + intros piece Hin. apply lower_capitalize.
      pose proof (split_pieces_ascii key_string Ha) as Hf.
      rewrite Forall_forall in Hf. apply Hf. exact Hin.
  - rewrite split_join.
    + rewrite map_map. f_equal. apply map_ext. exact capitalize_idem.
    + pose proof (split_on_not_nil plus key_string) as Hn.
      destruct (split_on plus key_string); [contradiction | discriminate].
    + pose proof (split_pieces_free plus key_string) as Hf.
      induction Hf as [|piece pieces Hp _ IH]; constructor; [|exact IH].
      rewrite capitalize_free. exact Hp.
Qed.

Lemma format_keystrokes_changes_case_only_witness :
  format_keystrokes (lit "ctrl+shift+space") = lit "Ctrl+Shift+Space" /\
  lower (format_keystrokes (lit "ctrl+shift+space"))
    = lower (lit "ctrl+shift+space") /\
  format_keystrokes (format_keystrokes (lit "ctrl+shift+space"))
    = format_keystrokes (lit "ctrl+shift+space").
Proof.
  split; [reflexivity|].
  apply (format_keystrokes_changes_case_only (lit "ctrl+shift+space")).
  reflexivity.
Defined.

(* ================================================================== *)
(** * The configuration file of [main.py]: what is loaded              *)
(* ================================================================== *)

Lemma keys_set_item (key : string) (value : Json) (d : Dict) :
  has_key key d = true -> keys (set_item key value d) = keys d.
Proof.
  unfold has_key, keys. induction d as [|[k v] rest IH]; [discriminate|].
  cbn [lookup set_item]. destruct (String.eqb key k); [reflexivity|].
  intros H. cbn [map fst]. f_equal. exact (IH H).
Qed.

Lemma lookup_set_item_same (key : string) (value : Json) (d : Dict) :
  lookup key (set_item key value d) = Some value.
Proof.
  induction d as [|[k v] rest IH]; cbn [set_item lookup].
  - rewrite String.eqb_refl. reflexivity.
  - destruct (String.eqb key k) eqn:E; cbn [lookup]; rewrite E;
      [reflexivity | exact IH].
Qed.

Lemma lookup_set_item_other (key other : string) (value : Json) (d : Dict) :
  key <> other -> lookup key (set_item other value d) = lookup key d.
Proof.
  intros Hne. induction d as [|[k v] rest IH]; cbn [set_item lookup].
  - destruct (String.eqb_spec key other); [contradiction | reflexivity].
  - destruct (String.eqb_spec other k) as [->|Hk]; cbn [lookup].
    + destruct (String.eqb_spec key k); [contradiction | reflexivity].
    + rewrite IH. reflexivity.
Qed.

Lemma lookup_not_key (key : string) (d : Dict) :
  ~ In key (keys d) -> lookup key d = None.
Proof.
  unfold keys. induction d as [|[k v] rest IH]; [reflexivity|].
  cbn [map fst In lookup]. intros H.
  destruct (String.eqb_spec key k) as [->|_]; [exfalso; auto|].
  apply IH. auto.
Qed.

Lemma apply_user_config_keys (user_config : Dict) :
  forall defaults, keys (apply_user_config defaults user_config)
                   = keys defaults.
Proof.
  unfold apply_user_config.
  induction user_config as [|[k v] rest IH]; intros defaults; [reflexivity|].
  cbn [fold_left fst snd]. rewrite IH.
  destruct (has_key k defaults) eqn:Hk; [|reflexivity].
  destruct (is_not_none v); [|reflexivity].
  apply keys_set_item. exact Hk.
Qed.

Lemma apply_user_config_lookup (user_config : Dict) :
  NoDup (keys user_config) ->
  forall (defaults : Dict) (key : string),
    lookup key (apply_user_config defaults user_config) =
    match lookup key defaults with
    | None => None
    | Some standard =>
        match lookup key user_config with
        | Some value => if is_not_none value then Some value else Some standard
        | None => Some standard
        end
    end.
Proof.
  unfold apply_user_config.
  induction user_config as [|[k v] rest IH]; intros Hnd defaults key.
  - cbn. destruct (lookup key defaults); reflexivity.
  - cbn [keys map fst] in Hnd. inversion Hnd as [|? ? Hnotin Hrest]. subst.
    cbn [fold_left fst snd]. rewrite (IH Hrest). cbn [lookup].
    destruct (String.eqb_spec key k) as [->|Hne].
    + rewrite (@lookup_not_key k rest Hnotin).
      unfold has_key.
      destruct (lookup k defaults) as [standard|] eqn:Hd; cbn [andb].
      * destruct (is_not_none v).
        -- rewrite lookup_set_item_same. reflexivity.
        -- rewrite Hd. reflexivity.
      * rewrite Hd. reflexivity.
    + assert (Hsame : lookup key
                (if has_key k defaults && is_not_none v
                 then set_item k v defaults else defaults)
              = lookup key defaults).
      { destruct (has_key k defaults && is_not_none v); [|reflexivity].
        apply lookup_set_item_other. exact Hne. }
      rewrite Hsame. reflexivity.
Qed.

(** X17.  Whatever [src/config.json] holds, the configuration that
    [load_config_with_defaults] returns has exactly the keys of the defaults,
    in their order: a key of the file that is not a default is dropped, and no
    default is ever missing. *)
Theorem loaded_config_has_the_default_keys
    (config_file : option (answer Dict)) (config : Dict) :
  load_config_with_defaults config_file = Ok config ->
  keys config = keys default_config.
Proof.
  destruct config_file as [[user_config|e]|]; cbn [load_config_with_defaults];
    intros H; inversion H.
  - apply apply_user_config_keys.
  - reflexivity.
Qed.

Lemma loaded_config_has_the_default_keys_witness :
  keys (apply_user_config default_config
          [("recording_mode", JString "press_to_toggle");
           ("theme", JString "dark");
           ("sample_rate", JNull)]%string)
  = keys default_config.
Proof.
  apply (@loaded_config_has_the_default_keys
           (Some (Ok [("recording_mode", JString "press_to_toggle");
                      ("theme", JString "dark");
                      ("sample_rate", JNull)]%string))).
  reflexivity.
Defined.

(** X18.  What the loaded configuration holds under a key: nothing when the
    key is not a default; the value of the file when the file has the key
    with a value other than [null]; the default otherwise.  A nested
    dictionary of the file replaces the default one as a whole. *)
Theorem loaded_config_lookup (user_config config : Dict) (key : string) :
  NoDup (keys user_config) ->
  load_config_with_defaults (Some (Ok user_config)) = Ok config ->
  lookup key config =
  match lookup key default_config with
  | None => None
  | Some standard =>
      match lookup key user_config with
      | Some value => if is_not_none value then Some value else Some standard
      | None => Some standard
      end
  end.
Proof.
  intros Hnd H. cbn [load_config_with_defaults] in H. inversion H.
  apply apply_user_config_lookup. exact Hnd.
Qed.

Lemma loaded_config_lookup_witness :
  lookup "api_options"
    (apply_user_config default_config
       [("api_options", JObject [("model", JString "whisper-2")]);
        ("sound_device", JNull)]%string)
  = Some (JObject [("model", JString "whisper-2")]%string).
Proof.
  apply (@loaded_config_lookup
           [("api_options", JObject [("model", JString "whisper-2")]);
            ("sound_device", JNull)]%string
           _ "api_options"%string).
  - repeat constructor; simpl; intuition discriminate.
  - reflexivity.
Defined.
